(** * apple-kbd-dat-icon-extract: the icon scanner and extractor

    A shallow embedding of [apple-kbd-dat-icon-extract.py].  Byte strings are
    [list byte], Python integers are [Z], and slicing follows Python's rules
    (negative indices are taken from the end, bounds are clipped, nothing is
    ever raised).  The two [while] loops are written with an iteration budget;
    the budget lemmas below show that the budgets used are never exhausted.
    The file system is a record of answers ([world]); what the code logs,
    creates and writes is returned as data.  [extract_icons] is the call in
    which [os.makedirs] and the opening of the input succeed;
    [extract_icons_host] adds the two exceptions the code does not catch.
    The parsing of the command line is outside the model: [main] is modelled
    from the parsed arguments on. *)

From Stdlib Require Import ZArith List Lia Bool String Ascii DecimalString Sorted.
From Stdlib.Strings Require Import Byte.
From Stdlib Require HexadecimalString DecimalN.
Import ListNotations.
Local Open Scope Z_scope.

(** ** Byte buffers and Python slicing *)

Definition bytes := list byte.

(** [len(data)] *)
Definition len (data : bytes) : Z := Z.of_nat (List.length data).

(** How Python turns one bound of [data[lo:hi]] into a position in
    [0 .. len(data)]. *)
Definition clip (n i : Z) : Z :=
  if i <? 0 then Z.max 0 (i + n) else Z.min i n.

(** [data[lo:hi]] *)
Definition slice (data : bytes) (lo hi : Z) : bytes :=
  let a := clip (len data) lo in
  let b := clip (len data) hi in
  firstn (Z.to_nat (b - a)) (skipn (Z.to_nat a) data).

(** [==] on byte strings *)
Fixpoint bytes_eqb (x y : bytes) : bool :=
  match x, y with
  | [], [] => true
  | a :: x', b :: y' => Byte.eqb a b && bytes_eqb x' y'
  | _, _ => false
  end.

(** [ICNS_HEADER = b'\x69\x63\x6e\x73'] *)
Definition ICNS_HEADER : bytes := [x69; x63; x6e; x73].

(** ** The scanner *)

(** The [while pos < len(data)] loop of [find_next_icon]; [budget] bounds the
    number of iterations. *)
Fixpoint find_loop (budget : nat) (data : bytes) (pos : Z) : Z :=
  match budget with
  | O => -1
  | S k =>
      if pos <? len data then
        if bytes_eqb (slice data pos (pos + len ICNS_HEADER)) ICNS_HEADER
        then pos + len ICNS_HEADER
        else find_loop k data (pos + 1)
      else -1
  end.

(** [find_next_icon(data, start_pos)]: the loop runs at most
    [len(data) - start_pos] times. *)
Definition find_next_icon (data : bytes) (start_pos : Z) : Z :=
  find_loop (Z.to_nat (len data - start_pos)) data start_pos.

(** The marker occupies [data[p .. p+4)]: the specification's reading of a
    match, independent of slicing. *)
Definition marker_at (data : bytes) (p : Z) : Prop :=
  exists pre post, data = pre ++ ICNS_HEADER ++ post /\ len pre = p.

(** ** The length field *)

Definition byte_val (b : byte) : Z := Z.of_N (Byte.to_N b).

(** [struct.unpack(">I", b)[0]]: the big-endian unsigned value of exactly
    four bytes; [None] stands for [struct.error], raised for any other
    length. *)
Definition unpack_be32 (b : bytes) : option Z :=
  match b with
  | [b0; b1; b2; b3] =>
      Some (((byte_val b0 * 256 + byte_val b1) * 256 + byte_val b2) * 256
            + byte_val b3)
  | _ => None
  end.

(** ** The chunk reader

    Lines 86-101 of [extract_icons]: the three checks made on a position
    returned by the scanner, and the slice taken when they pass. *)

Inductive chunk_error : Type :=
| IncompleteHeader   (* "Incomplete icon data found. Skipping..." *)
| InvalidSize        (* "Invalid icon size detected. Skipping..." *)
| OversizedChunk.    (* "Icon data size exceeds file length. Skipping..." *)

Definition read_chunk (data : bytes) (pos : Z) : chunk_error + Z * bytes :=
  if pos + 4 >? len data then inl IncompleteHeader
  else
    match unpack_be32 (slice data pos (pos + 4)) with
    | None => inl InvalidSize
    | Some icon_data_size =>
        if pos + icon_data_size >? len data then inl OversizedChunk
        else inr (icon_data_size, slice data pos (pos + icon_data_size))
    end.

(** ** Logging, file names and the outside world *)

Inductive level : Type := DEBUG | INFO | WARNING | ERROR.

Inductive message : Type :=
| DatMissing (datfile : string)        (* DAT file ... does not exist. *)
| DatUnreadable (datfile : string)     (* DAT file ... cannot be read. *)
| DatEmpty (datfile : string)          (* DAT file ... is empty. *)
| CreatingDir (output_dir : string)    (* Creating output directory: ... *)
| TooSmall                             (* The file is too small ... *)
| Starting                             (* Starting icon extraction... *)
| Malformed (e : chunk_error)          (* one of the three warnings above *)
| Extracted (n : Z) (icon_filename : string)
| WriteFailed                          (* Failed to write icon file: ... *)
| Complete (icon_count : Z).           (* Extraction complete. N icons ... *)

Definition record : Type := level * message.

(** [f"{n:04d}"]: decimal digits, zero-padded to four columns, the sign
    counted in the width. *)
Definition format_04d (n : Z) : string :=
  let digits := NilZero.string_of_uint (N.to_uint (Z.to_N (Z.abs n))) in
  let sign := if n <? 0 then "-"%string else ""%string in
  let pad := (4 - String.length sign - String.length digits)%nat in
  (sign ++ String.concat "" (repeat "0" pad) ++ digits)%string.

Definition ends_with_slash (s : string) : bool :=
  match String.get (String.length s - 1) s with
  | Some c => Ascii.eqb c "/"
  | None => false
  end.

(** [os.path.join(a, b)] on POSIX. *)
Definition path_join (a b : string) : string :=
  if String.prefix "/" b then b
  else if (String.length a =? 0)%nat || ends_with_slash a then (a ++ b)%string
  else (a ++ "/" ++ b)%string.

(** [os.path.join(output_dir, f"icon_{n:04d}.icns")] *)
Definition icon_path (output_dir : string) (n : Z) : string :=
  path_join output_dir ("icon_" ++ format_04d n ++ ".icns")%string.

(** What [extract_icons] asks of the file system.  [os.path.getsize] of the
    input is the length of what [read()] returns. *)
Record world : Type := {
  path_exists : string -> bool;          (* os.path.exists *)
  access_r : string -> bool;             (* os.access(_, os.R_OK) *)
  file_data : string -> bytes;           (* open(_, "rb").read() *)
  write_ok : string -> bytes -> bool     (* open(_, "wb") and write succeed *)
}.

(** ** The driving loop *)

(** One written icon file.  [icon_offset] is the position the data was sliced
    from; it is kept for the proofs only. *)
Record icon : Type := {
  icon_filename : string;
  icon_offset : Z;
  icon_data : bytes
}.

(** The variables of the loop, the records logged so far, and [cursor]: every
    value the variable [pos] has held, oldest first (kept for the proofs
    only). *)
Record state : Type := {
  pos : Z;
  icon_count : Z;
  written : list icon;
  log : list record;
  cursor : list Z
}.

(** Why the loop was left: its guard failed, the scanner returned -1, or one
    of the reader's checks failed. *)
Inductive halt : Type :=
| Exhausted
| NotFound
| BadChunk (e : chunk_error).

Inductive outcome : Type :=
| Continue (st : state)               (* next iteration *)
| Break (st : state) (h : halt)       (* [break] *)
| ReturnFalse (st : state).           (* [return False] on IOError *)

(** The body of [while pos < len(data)] in [extract_icons]. *)
Definition loop_body (w : world) (output_dir : string) (data : bytes)
    (st : state) : outcome :=
  let p := find_next_icon data (pos st) in
  if p =? -1 then
    Break {| pos := p; icon_count := icon_count st; written := written st;
             log := log st; cursor := cursor st ++ [p] |} NotFound
  else
    match read_chunk data p with
    | inl e =>
        Break {| pos := p; icon_count := icon_count st;
                 written := written st;
                 log := log st ++ [(WARNING, Malformed e)];
                 cursor := cursor st ++ [p] |} (BadChunk e)
    | inr (icon_data_size, data_slice) =>
        let name := icon_path output_dir (icon_count st) in
        let file := {| icon_filename := name; icon_offset := p;
                       icon_data := data_slice |} in
        if write_ok w name data_slice then
          Continue {| pos := p + icon_data_size;
                      icon_count := icon_count st + 1;
                      written := written st ++ [file];
                      log := log st
                             ++ [(INFO, Extracted (icon_count st + 1) name)];
                      cursor := cursor st ++ [p; p + icon_data_size] |}
        else
          ReturnFalse {| pos := p; icon_count := icon_count st;
                         written := written st;
                         log := log st ++ [(ERROR, WriteFailed)];
                         cursor := cursor st ++ [p] |}
    end.

Inductive loop_exit : Type :=
| Halted (st : state) (h : halt)      (* the loop ended; the code goes on *)
| Aborted (st : state).               (* [return False] from inside *)

(** [while pos < len(data)]: [budget] bounds the number of iterations, and
    [None] is an exhausted budget. *)
Fixpoint scan_loop (budget : nat) (w : world) (output_dir : string)
    (data : bytes) (st : state) : option loop_exit :=
  if pos st <? len data then
    match budget with
    | O => None
    | S k =>
        match loop_body w output_dir data st with
        | Continue st' => scan_loop k w output_dir data st'
        | Break st' h => Some (Halted st' h)
        | ReturnFalse st' => Some (Aborted st')
        end
    end
  else Some (Halted st Exhausted).

(** [pos = 0; icon_count = 0], after the records logged before the loop. *)
Definition initial (log0 : list record) : state :=
  {| pos := 0; icon_count := 0; written := []; log := log0; cursor := [0] |}.

(** The loop of [extract_icons] on a buffer, from [pos = 0], with one
    iteration allowed per byte of the buffer. *)
Definition pass (w : world) (output_dir : string) (data : bytes)
    (log0 : list record) : option loop_exit :=
  scan_loop (List.length data) w output_dir data (initial log0).

Definition exit_state (e : loop_exit) : state :=
  match e with
  | Halted st _ => st
  | Aborted st => st
  end.

(** ** [extract_icons] *)

(** What a call leaves behind: the value returned, the records logged, the
    directories created and the icon files written.  [left_loop] tells how
    the loop was left, if it was entered; it is kept for the proofs only. *)
Record result : Type := {
  returned : bool;
  messages : list record;
  made_dirs : list string;
  files : list icon;
  left_loop : option loop_exit
}.

Definition refused (log0 : list record) (dirs : list string) : result :=
  {| returned := false; messages := log0; made_dirs := dirs; files := [];
     left_loop := None |}.

(** The records logged before the loop when the input is accepted. *)
Definition prelude (w : world) (output_dir : string) : list record :=
  (if negb (path_exists w output_dir)
   then [(INFO, CreatingDir output_dir)] else [])
  ++ [(INFO, Starting)].

(** [extract_icons(datfile, output_dir)], when [os.makedirs] and
    [open(datfile, "rb")] succeed ([extract_icons_host] below has the calls
    in which they raise).  The progress bar is display only and is left
    out. *)
Definition extract_icons (w : world) (datfile output_dir : string)
    : option result :=
  if negb (path_exists w datfile) then
    Some (refused [(ERROR, DatMissing datfile)] [])
  else if negb (access_r w datfile) then
    Some (refused [(ERROR, DatUnreadable datfile)] [])
  else if len (file_data w datfile) =? 0 then
    Some (refused [(ERROR, DatEmpty datfile)] [])
  else
    let creating := negb (path_exists w output_dir) in
    let dirs := if creating then [output_dir] else [] in
    let data := file_data w datfile in
    if len data <? len ICNS_HEADER then
      Some (refused
              ((if creating then [(INFO, CreatingDir output_dir)] else [])
               ++ [(ERROR, TooSmall)]) dirs)
    else
      match pass w output_dir data (prelude w output_dir) with
      | None => None
      | Some (Halted st h) =>
          Some {| returned := true;
                  messages := log st ++ [(INFO, Complete (icon_count st))];
                  made_dirs := dirs; files := written st;
                  left_loop := Some (Halted st h) |}
      | Some (Aborted st) =>
          Some {| returned := false; messages := log st;
                  made_dirs := dirs; files := written st;
                  left_loop := Some (Aborted st) |}
      end.

(** ** What the proofs say about a pass *)

(** Where a written icon's data ends in the buffer. *)
Definition icon_end (c : icon) : Z := icon_offset c + len (icon_data c).

(** A written icon is the slice the reader accepted: it starts right after a
    marker, its first four bytes decode to its own length, and it is the
    buffer's bytes from its offset on, inside the buffer. *)
Definition accepted (data : bytes) (c : icon) : Prop :=
  marker_at data (icon_offset c - 4) /\
  exists icon_data_size,
    unpack_be32 (slice data (icon_offset c) (icon_offset c + 4))
      = Some icon_data_size /\
    icon_offset c + icon_data_size <= len data /\
    icon_data c
      = slice data (icon_offset c) (icon_offset c + icon_data_size) /\
    len (icon_data c) = icon_data_size.

(** Each icon was found by the scanner started where the previous one ended
    ([start] for the first). *)
Fixpoint chained (data : bytes) (start : Z) (l : list icon) : Prop :=
  match l with
  | [] => True
  | c :: l' =>
      icon_offset c = find_next_icon data start /\
      chained data (icon_end c) l'
  end.

(** Where the scanner resumes after the icons of [l]. *)
Definition resume (start : Z) (l : list icon) : Z :=
  fold_left (fun _ c => icon_end c) l start.

(** The invariant of the loop: the cursor is inside the buffer, the counter
    counts the files, each file is an accepted chunk lying before the cursor
    and at least four bytes after the previous one, and the cursor has only
    moved forward. *)
Record sound (data : bytes) (st : state) : Prop := {
  sound_pos : 0 <= pos st <= len data;
  sound_count : icon_count st = Z.of_nat (List.length (written st));
  sound_accepted : Forall (accepted data) (written st);
  sound_before :
    Forall (fun c => 4 <= icon_offset c /\ icon_end c <= pos st) (written st);
  sound_apart :
    StronglySorted (fun a b => icon_end a + 4 <= icon_offset b) (written st);
  sound_chain : chained data 0 (written st);
  sound_resume : pos st = resume 0 (written st);
  sound_sorted : StronglySorted Z.le (cursor st);
  sound_cursor : Forall (fun q => 0 <= q <= pos st) (cursor st)
}.

(** The loop, entered in [st0], is left as [e] without another full
    iteration. *)
Definition leaves (w : world) (output_dir : string) (data : bytes)
    (st0 : state) (e : loop_exit) : Prop :=
  if pos st0 <? len data then
    match loop_body w output_dir data st0 with
    | Continue _ => False
    | Break st' h => e = Halted st' h
    | ReturnFalse st' => e = Aborted st'
    end
  else e = Halted st0 Exhausted.

(** No warning has been logged: so it is until the loop is left. *)
Definition quiet (st : state) : Prop :=
  forall err, ~ In (WARNING, Malformed err) (log st).

(** The loop was left because of malformed data. *)
Definition malformed_exit (e : loop_exit) : bool :=
  match e with
  | Halted _ (BadChunk _) => true
  | _ => false
  end.

(** ** Sample inputs *)

(** A world in which [datfile] holds [data], everything can be read and every
    write succeeds. *)
Definition world_with (data : bytes) : world :=
  {| path_exists := fun _ => true;
     access_r := fun _ => true;
     file_data := fun _ => data;
     write_ok := fun _ _ => true |}.

(** Four bytes with no marker, a marker followed by an impossible length, and
    a marker alone. *)
Definition no_marker_file : bytes := [x00; x01; x02; x03].
Definition oversized_file : bytes := ICNS_HEADER ++ [xff; xff; xff; xff].
Definition marker_only_file : bytes := ICNS_HEADER.

(** The specification's two-chunk scenario, with any payload bytes. *)
Definition two_icons (p1 p2 p3 p4 q1 q2 : byte) : bytes :=
  ICNS_HEADER ++ [x00; x00; x00; x08; p1; p2; p3; p4]
  ++ ICNS_HEADER ++ [x00; x00; x00; x06; q1; q2].

(** ** [buffer_to_hex] *)

(** [f"{n:02x}"]: lowercase hexadecimal digits, zero-padded to two columns,
    the sign counted in the width. *)
Definition format_02x (n : Z) : string :=
  let digits :=
    HexadecimalString.NilZero.string_of_uint
      (N.to_hex_uint (Z.to_N (Z.abs n))) in
  let sign := if n <? 0 then "-"%string else ""%string in
  let pad := (2 - String.length sign - String.length digits)%nat in
  (sign ++ String.concat "" (repeat "0" pad) ++ digits)%string.

(** [' '.join(f'{byte:02x}' for byte in buffer)] *)
Definition buffer_to_hex (buffer : bytes) : string :=
  String.concat " " (map (fun b => format_02x (byte_val b)) buffer).

(** Reading the text back (not in the source; used to show that nothing is
    lost). *)
Definition hex_digits : string := "0123456789abcdef".

Definition hex_val (c : ascii) : option N :=
  option_map N.of_nat (String.index 0 (String c EmptyString) hex_digits).

Definition hex_pair (c1 c2 : ascii) : option byte :=
  match hex_val c1, hex_val c2 with
  | Some h, Some l => Byte.of_N (16 * h + l)
  | _, _ => None
  end.

Fixpoint hex_to_buffer (s : string) : option bytes :=
  match s with
  | EmptyString => Some []
  | String c1 (String c2 rest) =>
      match hex_pair c1 c2 with
      | None => None
      | Some b =>
          match rest with
          | EmptyString => Some [b]
          | String sep rest' =>
              if Ascii.eqb sep " "
              then option_map (cons b) (hex_to_buffer rest')
              else None
          end
      end
  | _ => None
  end.

(** ** File names and log records of a pass *)

(** Reading the number of a file name back (not in the source). *)
Definition parse_index (s : string) : option Z :=
  option_map (fun d => Z.of_N (N.of_uint d)) (NilEmpty.uint_of_string s).

(** The names [icon_0000.icns], [icon_0001.icns], ... of the first [n]
    files. *)
Definition index_names (output_dir : string) (n : nat) : list string :=
  map (fun i => icon_path output_dir (Z.of_nat i)) (seq 0 n).

(** The records "Extracted icon 1 to ...", "Extracted icon 2 to ...", ... of
    the first [n] files. *)
Definition extracted_records (output_dir : string) (n : nat)
    : list record :=
  map (fun i => (INFO, Extracted (Z.of_nat i + 1)
                         (icon_path output_dir (Z.of_nat i))))
      (seq 0 n).

(** The number of bytes written. *)
Definition total_size (l : list icon) : Z :=
  fold_right (fun c acc => len (icon_data c) + acc) 0 l.

(** The position [q] lies in a written icon, from the first byte of its
    marker to its last byte. *)
Definition covered (l : list icon) (q : Z) : Prop :=
  exists c, In c l /\ icon_offset c - 4 <= q < icon_end c.

(** What the full iterations keep besides [sound]: the names and the records
    are numbered in order, every file was written successfully, the files
    and their markers fit before the cursor, and no marker before the cursor
    was passed over outside a written icon. *)
Record tidy (w : world) (output_dir : string) (data : bytes)
    (log0 : list record) (st : state) : Prop := {
  tidy_names :
    map icon_filename (written st)
    = index_names output_dir (List.length (written st));
  tidy_log :
    log st = log0 ++ extracted_records output_dir (List.length (written st));
  tidy_writes :
    Forall (fun c => write_ok w (icon_filename c) (icon_data c) = true)
           (written st);
  tidy_size :
    total_size (written st) + 4 * Z.of_nat (List.length (written st))
    <= pos st;
  tidy_markers :
    forall q, marker_at data q -> q < pos st -> covered (written st) q
}.

(** What [extract_icons] makes of the way the loop was left. *)
Definition report (dirs : list string) (e : loop_exit) : result :=
  match e with
  | Halted st h =>
      {| returned := true;
         messages := log st ++ [(INFO, Complete (icon_count st))];
         made_dirs := dirs; files := written st;
         left_loop := Some (Halted st h) |}
  | Aborted st =>
      {| returned := false; messages := log st;
         made_dirs := dirs; files := written st;
         left_loop := Some (Aborted st) |}
  end.

(** The input passes the four checks made before the loop. *)
Definition usable (w : world) (datfile : string) : Prop :=
  path_exists w datfile = true /\ access_r w datfile = true /\
  4 <= len (file_data w datfile).

(** ** [extract_icons] with the exceptions it lets through

    [extract_icons] above takes [os.makedirs(output_dir)] and
    [open(datfile, "rb")] to succeed.  Both calls are outside any [try] in
    the source, so when they fail the exception leaves the function; here
    they may. *)

(** The world, and whether [os.makedirs] and [open(_, "rb")] succeed. *)
Record host : Type := {
  host_world : world;
  makedirs_ok : string -> bool;
  open_ok : string -> bool
}.

(** [os.makedirs(output_dir)] returns: never for the empty path, which it
    refuses with [FileNotFoundError]. *)
Definition makedirs_succeeds (h : host) (output_dir : string) : bool :=
  negb (String.eqb output_dir "") && makedirs_ok h output_dir.

(** The call that raised. *)
Inductive uncaught : Type :=
| MakedirsError    (* from [os.makedirs(output_dir)], line 65 *)
| OpenError.       (* from [open(datfile, "rb")], line 67 *)

(** How a call ends: with a result, or with an exception, after the records
    logged and the directories created until then. *)
Inductive call_end : Type :=
| Finished (r : result)
| Raised (x : uncaught) (logged : list record) (dirs : list string).

Definition extract_icons_host (h : host) (datfile output_dir : string)
    : option call_end :=
  let w := host_world h in
  if negb (path_exists w datfile) then
    Some (Finished (refused [(ERROR, DatMissing datfile)] []))
  else if negb (access_r w datfile) then
    Some (Finished (refused [(ERROR, DatUnreadable datfile)] []))
  else if len (file_data w datfile) =? 0 then
    Some (Finished (refused [(ERROR, DatEmpty datfile)] []))
  else
    let creating := negb (path_exists w output_dir) in
    let log0 := if creating then [(INFO, CreatingDir output_dir)] else [] in
    if creating && negb (makedirs_succeeds h output_dir) then
      Some (Raised MakedirsError log0 [])
    else
      let dirs := if creating then [output_dir] else [] in
      if negb (open_ok h datfile) then
        Some (Raised OpenError log0 dirs)
      else
        let data := file_data w datfile in
        if len data <? len ICNS_HEADER then
          Some (Finished (refused (log0 ++ [(ERROR, TooSmall)]) dirs))
        else
          option_map (fun e => Finished (report dirs e))
                     (pass w output_dir data (prelude w output_dir)).


(** The files written, the records logged, the value returned if any, and
    whether the loop was entered, however the call ended. *)
Definition files_of (o : call_end) : list icon :=
  match o with
  | Finished r => files r
  | Raised _ _ _ => []
  end.

Definition logged_of (o : call_end) : list record :=
  match o with
  | Finished r => messages r
  | Raised _ logged _ => logged
  end.

Definition returned_of (o : call_end) : option bool :=
  match o with
  | Finished r => Some (returned r)
  | Raised _ _ _ => None
  end.

Definition entered_loop (o : call_end) : bool :=
  match o with
  | Finished r =>
      match left_loop r with
      | Some _ => true
      | None => false
      end
  | Raised _ _ _ => false
  end.

(** The output directory is there when the input is opened: it existed, or
    [os.makedirs] made it. *)
Definition output_dir_ready (h : host) (output_dir : string) : Prop :=
  path_exists (host_world h) output_dir = true
  \/ makedirs_succeeds h output_dir = true.

(** ** [main], once the arguments are parsed *)

(** [DEFAULT_DATFILE] *)
Definition DEFAULT_DATFILE : string :=
  "/System/Library/Keyboard Layouts/AppleKeyboardLayouts.bundle/Contents/Resources/AppleKeyboardLayouts-L.dat".

(** What [parser.parse_args()] returns: [datfile] is optional, [--output] is
    required, [--loglevel] is one of the four names. *)
Record arguments : Type := {
  arg_datfile : option string;
  arg_output : string;
  arg_loglevel : level
}.

(** The numeric value of a level in [logging]. *)
Definition level_no (l : level) : Z :=
  match l with
  | DEBUG => 10
  | INFO => 20
  | WARNING => 30
  | ERROR => 40
  end.

(** The records the root logger lets through once
    [logging.getLogger().setLevel(loglevel)] is done. *)
Definition shown (loglevel : level) (rs : list record) : list record :=
  filter (fun r => level_no loglevel <=? level_no (fst r)) rs.

(** How [main] ends.  The module never imports [sys], so evaluating
    [sys.exit(1)] raises [NameError]. *)
Inductive ending : Type :=
| Returns
| NameError (name : string).

(** What a run of [main] shows and how it ends; [failure_logged] is the
    record "Extraction failed. Check the logs for details.", logged at level
    ERROR and so shown at every level. *)
Record main_result : Type := {
  main_shown : list record;
  failure_logged : bool;
  main_ending : ending
}.

Definition main (w : world) (args : arguments) : option main_result :=
  let datfile :=
    match arg_datfile args with
    | Some d => d
    | None => DEFAULT_DATFILE
    end in
  match extract_icons w datfile (arg_output args) with
  | None => None
  | Some r =>
      let records := shown (arg_loglevel args) (messages r) in
      if negb (returned r) then
        Some {| main_shown := records; failure_logged := true;
                main_ending := NameError "sys" |}
      else
        Some {| main_shown := records; failure_logged := false;
                main_ending := Returns |}
  end.

(** A host on which only [in.dat] exists, holding [data]; every directory but
    the empty path can be made, and everything can be opened and written. *)
Definition host_with (data : bytes) : host :=
  {| host_world :=
       {| path_exists := fun p => String.eqb p "in.dat";
          access_r := fun _ => true;
          file_data := fun _ => data;
          write_ok := fun _ _ => true |};
     makedirs_ok := fun _ => true;
     open_ok := fun _ => true |}.

(** ** Facts about slices *)

Lemma len_nonneg (data : bytes) : 0 <= len data.
Proof. unfold len. lia. Qed.

Lemma len_app (x y : bytes) : len (x ++ y) = len x + len y.
Proof. unfold len. rewrite length_app. lia. Qed.

Lemma bytes_eqb_eq (x y : bytes) : bytes_eqb x y = true <-> x = y.
Proof.
  revert y. induction x as [|a x IH]; intros [|b y]; simpl; split;
    try congruence; try reflexivity.
  - intros H. apply andb_true_iff in H as [Hab Hxy].
    apply Byte.byte_dec_bl in Hab. apply IH in Hxy. congruence.
  - intros H. injection H as -> ->. apply andb_true_iff. split.
    + apply Byte.byte_dec_lb. reflexivity.
    + apply IH. reflexivity.
Qed.

(** A slice whose bounds lie inside the buffer. *)
Lemma slice_inside (data : bytes) (lo hi : Z) :
  0 <= lo -> lo <= hi -> hi <= len data ->
  slice data lo hi =
  firstn (Z.to_nat (hi - lo)) (skipn (Z.to_nat lo) data).
Proof.
  intros Hlo Hle Hhi. unfold slice, clip.
  destruct (Z.ltb_spec lo 0); [lia|].
  destruct (Z.ltb_spec hi 0); [lia|].
  rewrite !Z.min_l by lia. reflexivity.
Qed.

Lemma slice_inside_len (data : bytes) (lo hi : Z) :
  0 <= lo -> lo <= hi -> hi <= len data ->
  len (slice data lo hi) = hi - lo.
Proof.
  intros Hlo Hle Hhi. rewrite slice_inside by assumption.
  unfold len in *. rewrite length_firstn, length_skipn. lia.
Qed.

(** A slice never holds more than what the buffer has from [lo] on. *)
Lemma slice_bounded (data : bytes) (lo hi : Z) :
  0 <= lo -> lo + len (slice data lo hi) <= Z.max lo (len data).
Proof.
  intros Hlo. unfold slice, clip.
  destruct (Z.ltb_spec lo 0); [lia|].
  unfold len. rewrite length_firstn, length_skipn.
  destruct (Z.ltb_spec hi 0); lia.
Qed.

(** A slice starting at a non-negative position with a later upper bound has
    the full width exactly when the upper bound is inside the buffer. *)
Lemma slice_full_width (data : bytes) (lo w : Z) :
  0 <= lo -> 0 < w ->
  len (slice data lo (lo + w)) = w -> lo + w <= len data.
Proof.
  intros Hlo Hw. unfold slice, clip.
  destruct (Z.ltb_spec lo 0); [lia|].
  destruct (Z.ltb_spec (lo + w) 0); [lia|].
  unfold len. rewrite length_firstn, length_skipn. lia.
Qed.

Lemma slice_of_app (pre mid post : bytes) :
  slice (pre ++ mid ++ post) (len pre) (len pre + len mid) = mid.
Proof.
  rewrite slice_inside.
  - unfold len. rewrite Nat2Z.id.
    replace (Z.to_nat (Z.of_nat (List.length pre) + Z.of_nat (List.length mid)
                       - Z.of_nat (List.length pre))) with (List.length mid) by lia.
    rewrite skipn_app, skipn_all, Nat.sub_diag. simpl.
    rewrite firstn_app, firstn_all, Nat.sub_diag. simpl.
    apply app_nil_r.
  - apply len_nonneg.
  - pose proof (len_nonneg mid). lia.
  - rewrite !len_app. pose proof (len_nonneg post). lia.
Qed.

Lemma slice_split (data : bytes) (lo hi : Z) :
  0 <= lo -> lo <= hi -> hi <= len data ->
  data = firstn (Z.to_nat lo) data ++ slice data lo hi
         ++ skipn (Z.to_nat hi) data.
Proof.
  intros Hlo Hle Hhi. rewrite slice_inside by assumption.
  rewrite <- (firstn_skipn (Z.to_nat lo) data) at 1. f_equal.
  rewrite <- (firstn_skipn (Z.to_nat (hi - lo)) (skipn (Z.to_nat lo) data)) at 1.
  f_equal. rewrite skipn_skipn. f_equal. lia.
Qed.

(** Slicing and the specification's reading of a match agree. *)
Lemma marker_at_slice (data : bytes) (p : Z) :
  0 <= p ->
  marker_at data p <-> slice data p (p + len ICNS_HEADER) = ICNS_HEADER.
Proof.
  intros Hp. split.
  - intros (pre & post & -> & <-). apply slice_of_app.
  - intros Heq.
    assert (Hin : p + len ICNS_HEADER <= len data).
    { apply slice_full_width; [assumption|reflexivity|].
      rewrite Heq. reflexivity. }
    change (len ICNS_HEADER) with 4 in *.
    exists (firstn (Z.to_nat p) data), (skipn (Z.to_nat (p + 4)) data). split.
    + rewrite <- Heq. apply slice_split; lia.
    + unfold len in *. rewrite length_firstn. lia.
Qed.

Lemma marker_at_inside (data : bytes) (p : Z) :
  marker_at data p -> 0 <= p /\ p + 4 <= len data.
Proof.
  intros (pre & post & -> & <-). rewrite !len_app.
  change (len ICNS_HEADER) with 4.
  pose proof (len_nonneg pre). pose proof (len_nonneg post). lia.
Qed.

(** ** The scanner *)

Section Scanner.

Variable data : bytes.

(** No marker starts at or after a position fewer than four bytes before
    the end. *)
Lemma no_marker_near_end (pos : Z) :
  len data - 3 <= pos -> forall q, pos <= q -> ~ marker_at data q.
Proof.
  intros Hpos q Hq Hm. apply marker_at_inside in Hm. lia.
Qed.

(** What the loop computes, for any budget that covers the rest of the
    buffer. *)
Lemma find_loop_spec (budget : nat) : forall pos,
  0 <= pos -> len data - pos <= Z.of_nat budget ->
  (exists p, pos <= p /\ marker_at data p /\
             (forall q, pos <= q < p -> ~ marker_at data q) /\
             find_loop budget data pos = p + 4)
  \/ ((forall q, pos <= q -> ~ marker_at data q) /\
      find_loop budget data pos = -1).
Proof.
  induction budget as [|k IH]; intros pos Hpos Hbudget.
  - right. split; [|reflexivity].
    apply no_marker_near_end. lia.
  - cbn [find_loop]. destruct (Z.ltb_spec pos (len data)) as [Hlt|Hge].
    + destruct (bytes_eqb (slice data pos (pos + len ICNS_HEADER))
                          ICNS_HEADER) eqn:Hcmp.
      * left. exists pos. apply bytes_eqb_eq in Hcmp.
        apply marker_at_slice in Hcmp; [|assumption].
        repeat split; try assumption; try lia.
      * assert (Hno : ~ marker_at data pos).
        { intros Hm. apply marker_at_slice in Hm; [|assumption].
          apply bytes_eqb_eq in Hm. congruence. }
        destruct (IH (pos + 1)) as [(p & Hp & Hm & Hfirst & Hres)|[Hnone Hres]];
          try lia.
        -- left. exists p. repeat split; try assumption; try lia.
           intros q Hq. destruct (Z.eq_dec q pos) as [->|Hne];
             [assumption|apply Hfirst; lia].
        -- right. split; [|assumption].
           intros q Hq. destruct (Z.eq_dec q pos) as [->|Hne];
             [assumption|apply Hnone; lia].
    + right. split; [|reflexivity].
      apply no_marker_near_end. lia.
Qed.

(** A larger budget changes nothing: the budget of [find_next_icon] is
    enough. *)
Lemma find_loop_budget (budget : nat) : forall pos,
  len data - pos <= Z.of_nat budget ->
  find_loop budget data pos = find_next_icon data pos.
Proof.
  unfold find_next_icon.
  induction budget as [|k IH]; intros pos Hbudget.
  - replace (Z.to_nat (len data - pos)) with O by lia. reflexivity.
  - cbn [find_loop]. destruct (Z.ltb_spec pos (len data)) as [Hlt|Hge].
    + replace (Z.to_nat (len data - pos))
        with (S (Z.to_nat (len data - (pos + 1)))) by lia.
      cbn [find_loop]. destruct (Z.ltb_spec pos (len data)); [|lia].
      destruct (bytes_eqb _ _); [reflexivity|]. apply IH. lia.
    + replace (Z.to_nat (len data - pos)) with O by lia. reflexivity.
Qed.

Lemma find_next_icon_spec (start_pos : Z) :
  0 <= start_pos ->
  (exists p, start_pos <= p /\ marker_at data p /\
             (forall q, start_pos <= q < p -> ~ marker_at data q) /\
             find_next_icon data start_pos = p + 4)
  \/ ((forall q, start_pos <= q -> ~ marker_at data q) /\
      find_next_icon data start_pos = -1).
Proof.
  intros Hstart. apply find_loop_spec; [assumption|lia].
Qed.

(** A position returned by the scanner lies right after a marker, at least
    four bytes after the start and inside the buffer. *)
Lemma find_next_icon_found (start_pos p : Z) :
  0 <= start_pos -> find_next_icon data start_pos = p -> p <> -1 ->
  start_pos + 4 <= p <= len data /\ marker_at data (p - 4).
Proof.
  intros Hstart Hfind Hfound.
  destruct (find_next_icon_spec start_pos Hstart)
    as [(q & Hq & Hm & _ & Hres)|[_ Hres]]; [|congruence].
  rewrite Hres in Hfind. subst p.
  pose proof (marker_at_inside _ _ Hm).
  replace (q + 4 - 4) with q by lia. split; [lia|assumption].
Qed.

End Scanner.

(** C1 -- scanner contract.  For a start position inside the buffer,
    [find_next_icon] returns [p + 4] for the smallest [p >= start_pos] at
    which the four bytes [data[p .. p+4)] are the marker, and [-1] when there
    is no such [p]; a position it returns lies between 4 and [len(data)];
    and the slice it compares at a scanned position ends inside the buffer. *)
Theorem find_next_icon_contract (data : bytes) (start_pos : Z) :
  0 <= start_pos <= len data ->
  ((exists p, start_pos <= p /\ marker_at data p /\
              (forall q, start_pos <= q < p -> ~ marker_at data q) /\
              find_next_icon data start_pos = p + 4)
   \/ ((forall q, start_pos <= q -> ~ marker_at data q) /\
       find_next_icon data start_pos = -1))
  /\ (find_next_icon data start_pos <> -1 ->
      4 <= find_next_icon data start_pos <= len data)
  /\ (forall q, start_pos <= q < len data ->
      q + len (slice data q (q + len ICNS_HEADER)) <= len data).
Proof.
  intros [Hlo Hhi]. split; [|split].
  - apply find_next_icon_spec. assumption.
  - intros Hfound.
    destruct (find_next_icon_found data start_pos _ Hlo eq_refl Hfound).
    lia.
  - intros q Hq.
    pose proof (slice_bounded data q (q + len ICNS_HEADER)). lia.
Qed.

Lemma find_next_icon_contract_witness :
  let data := [x00; x69; x63; x6e; x73; x00; x00; x00; x04] in
  find_next_icon data 0 = 5 /\
  ((exists p, 0 <= p /\ marker_at data p /\
              (forall q, 0 <= q < p -> ~ marker_at data q) /\
              find_next_icon data 0 = p + 4)
   \/ ((forall q, 0 <= q -> ~ marker_at data q) /\
       find_next_icon data 0 = -1)).
Proof.
  intros data. split; [reflexivity|].
  apply (proj1 (find_next_icon_contract data 0 (conj (Z.le_refl 0) (len_nonneg data)))).
Defined.

(** ** The length field and the chunk reader *)

Lemma byte_val_range (b : byte) : 0 <= byte_val b < 256.
Proof.
  unfold byte_val. pose proof (Byte.to_N_bounded b). lia.
Qed.

(** [struct.unpack] succeeds on exactly four bytes, with an unsigned 32-bit
    value. *)
Lemma unpack_be32_four (b : bytes) :
  len b = 4 ->
  exists b0 b1 b2 b3,
    b = [b0; b1; b2; b3] /\
    unpack_be32 b
      = Some (byte_val b0 * 2 ^ 24 + byte_val b1 * 2 ^ 16
              + byte_val b2 * 2 ^ 8 + byte_val b3).
Proof.
  unfold len. intros Hlen.
  destruct b as [|b0 [|b1 [|b2 [|b3 [|b4 b]]]]]; simpl in Hlen; try lia.
  exists b0, b1, b2, b3. split; [reflexivity|].
  unfold unpack_be32. f_equal. lia.
Qed.

Lemma unpack_be32_some (b : bytes) (n : Z) :
  unpack_be32 b = Some n -> len b = 4 /\ 0 <= n < 2 ^ 32.
Proof.
  destruct b as [|b0 [|b1 [|b2 [|b3 [|b4 b]]]]]; simpl; try discriminate.
  intros [= <-]. split; [reflexivity|].
  pose proof (byte_val_range b0). pose proof (byte_val_range b1).
  pose proof (byte_val_range b2). pose proof (byte_val_range b3). lia.
Qed.

Section Reader.

Variable data : bytes.

(** Once four bytes remain, the length field always decodes. *)
Lemma header_decodes (offset : Z) :
  0 <= offset -> offset + 4 <= len data ->
  exists icon_data_size,
    unpack_be32 (slice data offset (offset + 4)) = Some icon_data_size /\
    0 <= icon_data_size < 2 ^ 32.
Proof.
  intros Hlo Hhi.
  destruct (unpack_be32_four (slice data offset (offset + 4)))
    as (b0 & b1 & b2 & b3 & _ & Hun).
  { rewrite slice_inside_len; lia. }
  eexists. split; [exact Hun|].
  apply unpack_be32_some in Hun. apply Hun.
Qed.

(** A decoded length field means four bytes were there. *)
Lemma decoded_header_inside (offset n : Z) :
  0 <= offset ->
  unpack_be32 (slice data offset (offset + 4)) = Some n ->
  offset + 4 <= len data /\ 0 <= n < 2 ^ 32.
Proof.
  intros Hlo Hun. apply unpack_be32_some in Hun as [Hlen Hn].
  split; [|assumption]. apply slice_full_width; [assumption|lia|assumption].
Qed.

Lemma read_chunk_incomplete (offset : Z) :
  read_chunk data offset = inl IncompleteHeader <-> offset + 4 > len data.
Proof.
  unfold read_chunk. destruct (Z.gtb_spec (offset + 4) (len data)).
  - split; [lia|reflexivity].
  - split; [|lia]. destruct (unpack_be32 _); [|discriminate].
    destruct (_ >? _); discriminate.
Qed.

Lemma read_chunk_oversized (offset n : Z) :
  unpack_be32 (slice data offset (offset + 4)) = Some n ->
  offset + 4 <= len data ->
  read_chunk data offset = inl OversizedChunk <-> offset + n > len data.
Proof.
  intros Hun Hhdr. unfold read_chunk.
  destruct (Z.gtb_spec (offset + 4) (len data)); [lia|].
  rewrite Hun. destruct (Z.gtb_spec (offset + n) (len data)).
  - split; [lia|reflexivity].
  - split; [discriminate|lia].
Qed.

(** The [struct.error] branch is never taken at a non-negative position. *)
Lemma read_chunk_never_invalid (offset : Z) :
  0 <= offset -> read_chunk data offset <> inl InvalidSize.
Proof.
  intros Hlo. unfold read_chunk.
  destruct (Z.gtb_spec (offset + 4) (len data)); [discriminate|].
  destruct (header_decodes offset) as (n & -> & _); try lia.
  destruct (_ >? _); discriminate.
Qed.

(** What an accepted chunk is. *)
Lemma read_chunk_accepted (offset n : Z) (d : bytes) :
  0 <= offset -> read_chunk data offset = inr (n, d) ->
  unpack_be32 (slice data offset (offset + 4)) = Some n /\
  offset + 4 <= len data /\ 0 <= n /\ offset + n <= len data /\
  d = slice data offset (offset + n) /\ len d = n.
Proof.
  intros Hlo. unfold read_chunk.
  destruct (Z.gtb_spec (offset + 4) (len data)); [discriminate|].
  destruct (unpack_be32 _) as [m|] eqn:Hun; [|discriminate].
  destruct (Z.gtb_spec (offset + m) (len data)); [discriminate|].
  intros [= <- <-]. apply unpack_be32_some in Hun as Hm.
  repeat split; try lia. rewrite slice_inside_len; lia.
Qed.

(** Every decoded length that fits is accepted, whatever its value. *)
Lemma read_chunk_accepts (offset n : Z) :
  0 <= offset ->
  unpack_be32 (slice data offset (offset + 4)) = Some n ->
  offset + n <= len data ->
  read_chunk data offset = inr (n, slice data offset (offset + n)).
Proof.
  intros Hlo Hun Hfit.
  destruct (decoded_header_inside _ _ Hlo Hun) as [Hhdr _].
  unfold read_chunk.
  destruct (Z.gtb_spec (offset + 4) (len data)); [lia|].
  rewrite Hun. destruct (Z.gtb_spec (offset + n) (len data)); [lia|].
  reflexivity.
Qed.

End Reader.

(** ** Lists built at the end *)

(** A [Forall] of bounds follows from a [Forall] of tighter bounds. *)
Ltac widen H :=
  eapply Forall_impl; [|exact H]; simpl; intros; lia.

Lemma StronglySorted_snoc {A : Type} (R : A -> A -> Prop) (l : list A)
    (x : A) :
  StronglySorted R l -> Forall (fun a => R a x) l ->
  StronglySorted R (l ++ [x]).
Proof.
  induction 1 as [|a l Hs IH Ha]; intros Hall; simpl.
  - repeat constructor.
  - inversion Hall; subst. constructor.
    + apply IH. assumption.
    + apply Forall_app. split; [assumption|]. repeat constructor. assumption.
Qed.

Lemma resume_snoc (start : Z) (l : list icon) (c : icon) :
  resume start (l ++ [c]) = icon_end c.
Proof.
  unfold resume. rewrite fold_left_app. reflexivity.
Qed.

Lemma chained_snoc (data : bytes) (l : list icon) (c : icon) :
  forall start,
  chained data start l ->
  icon_offset c = find_next_icon data (resume start l) ->
  chained data start (l ++ [c]).
Proof.
  induction l as [|a l IH]; intros start Hl Hc; simpl in *.
  - split; [assumption|exact I].
  - destruct Hl as [Ha Hl]. split; [assumption|]. apply IH; assumption.
Qed.

(** ** One iteration *)

Section Iteration.

Variables (w : world) (output_dir : string) (data : bytes).

(** An iteration that goes on has found a marker, accepted the chunk after
    it and written it. *)
Lemma loop_body_continue (st st' : state) :
  0 <= pos st -> loop_body w output_dir data st = Continue st' ->
  exists p n,
    find_next_icon data (pos st) = p /\ p <> -1 /\
    read_chunk data p = inr (n, slice data p (p + n)) /\
    write_ok w (icon_path output_dir (icon_count st)) (slice data p (p + n)) = true /\
    st' = {| pos := p + n; icon_count := icon_count st + 1;
             written := written st
                        ++ [{| icon_filename := icon_path output_dir (icon_count st);
                               icon_offset := p;
                               icon_data := slice data p (p + n) |}];
             log := log st
                    ++ [(INFO, Extracted (icon_count st + 1)
                                 (icon_path output_dir (icon_count st)))];
             cursor := cursor st ++ [p; p + n] |}.
Proof.
  intros Hpos. unfold loop_body.
  destruct (Z.eqb_spec (find_next_icon data (pos st)) (-1)) as [|Hfound];
    [discriminate|].
  destruct (find_next_icon_found data _ _ Hpos eq_refl Hfound) as [Hp _].
  destruct (read_chunk data _) as [e|[n d]] eqn:Hread; [discriminate|].
  destruct (write_ok w _ d) eqn:Hwrite; [|discriminate].
  intros [= <-].
  destruct (read_chunk_accepted data (find_next_icon data (pos st)) n d
              ltac:(lia) Hread) as (_ & _ & _ & _ & -> & _).
  exists (find_next_icon data (pos st)), n. repeat split; assumption.
Qed.

(** An iteration that breaks or returns leaves the files and the counter as
    they were. *)
Lemma leaves_keeps (st0 : state) (e : loop_exit) :
  leaves w output_dir data st0 e ->
  written (exit_state e) = written st0 /\
  icon_count (exit_state e) = icon_count st0.
Proof.
  unfold leaves, loop_body. destruct (pos st0 <? len data).
  - destruct (_ =? -1); [intros ->; split; reflexivity|].
    destruct (read_chunk data _) as [c|[n d]];
      [intros ->; split; reflexivity|].
    destruct (write_ok w _ d); [contradiction|].
    intros ->; split; reflexivity.
  - intros ->; split; reflexivity.
Qed.

(** The invariant is kept, and the cursor moves at least four bytes on. *)
Lemma sound_step (st st' : state) :
  sound data st -> loop_body w output_dir data st = Continue st' ->
  sound data st' /\ pos st + 4 <= pos st'.
Proof.
  intros Hs Hbody. destruct Hs as [Hpos Hcount Hacc Hbefore Hapart Hchain
                                    Hres Hsorted Hcur].
  destruct (loop_body_continue st st' (proj1 Hpos) Hbody)
    as (p & n & Hfind & Hfound & Hread & _ & ->).
  destruct (find_next_icon_found data _ _ (proj1 Hpos) Hfind Hfound)
    as [Hp Hmark].
  destruct (read_chunk_accepted data p n _ ltac:(lia) Hread)
    as (Hun & Hhdr & Hn & Hfit & _ & Hlen).
  split; [|simpl; lia]. constructor; simpl.
  - lia.
  - rewrite length_app. simpl. lia.
  - apply Forall_app. split; [assumption|]. repeat constructor.
    + exact Hmark.
    + exists n. simpl. repeat split; assumption.
  - apply Forall_app. split.
    + widen Hbefore.
    + repeat constructor; unfold icon_end; simpl; lia.
  - apply StronglySorted_snoc; [assumption|].
    widen Hbefore.
  - apply chained_snoc; [assumption|]. simpl. congruence.
  - rewrite resume_snoc. unfold icon_end. simpl. lia.
  - change (cursor st ++ [p; p + n])
      with (cursor st ++ [p] ++ [p + n]).
    rewrite app_assoc. apply StronglySorted_snoc.
    + apply StronglySorted_snoc; [assumption|].
      widen Hcur.
    + apply Forall_app. split; [|repeat constructor; lia].
      widen Hcur.
  - change (cursor st ++ [p; p + n])
      with (cursor st ++ [p] ++ [p + n]).
    rewrite app_assoc. apply Forall_app. split; [apply Forall_app; split|].
    + widen Hcur.
    + repeat constructor; lia.
    + repeat constructor; lia.
Qed.

Lemma sound_initial (log0 : list record) : sound data (initial log0).
Proof.
  pose proof (len_nonneg data).
  constructor; simpl; try (repeat constructor; lia); reflexivity.
Qed.

(** ** The whole loop *)

(** Whatever holds at the start and is kept by every full iteration holds
    where the loop is left. *)
Lemma scan_loop_invariant (P : state -> Prop) :
  (forall st st', P st -> pos st < len data ->
                  loop_body w output_dir data st = Continue st' -> P st') ->
  forall budget st e,
    P st -> scan_loop budget w output_dir data st = Some e ->
    exists st0, P st0 /\ leaves w output_dir data st0 e.
Proof.
  intros Hkeep. induction budget as [|k IH]; intros st e HP Hrun;
    cbn [scan_loop] in Hrun;
    destruct (Z.ltb_spec (pos st) (len data)) as [Hlt|Hge].
  - discriminate.
  - injection Hrun as <-. exists st. split; [assumption|].
    unfold leaves. destruct (Z.ltb_spec (pos st) (len data)); [lia|].
    reflexivity.
  - destruct (loop_body w output_dir data st) as [st'|st' h|st'] eqn:Hbody.
    + apply (IH st'); [|assumption]. eapply Hkeep; eassumption.
    + injection Hrun as <-. exists st. split; [assumption|].
      unfold leaves. destruct (Z.ltb_spec (pos st) (len data)); [|lia].
      rewrite Hbody. reflexivity.
    + injection Hrun as <-. exists st. split; [assumption|].
      unfold leaves. destruct (Z.ltb_spec (pos st) (len data)); [|lia].
      rewrite Hbody. reflexivity.
  - injection Hrun as <-. exists st. split; [assumption|].
    unfold leaves. destruct (Z.ltb_spec (pos st) (len data)); [lia|].
    reflexivity.
Qed.

(** The loop ends within the budget whenever the budget covers the bytes
    left: every full iteration moves the cursor on. *)
Lemma scan_loop_terminates (budget : nat) : forall st,
  sound data st -> len data - pos st <= Z.of_nat budget ->
  exists e, scan_loop budget w output_dir data st = Some e.
Proof.
  induction budget as [|k IH]; intros st Hs Hbudget; cbn [scan_loop];
    destruct (Z.ltb_spec (pos st) (len data)) as [Hlt|Hge];
    try (eexists; reflexivity); [lia|].
  destruct (loop_body w output_dir data st) as [st'|st' h|st'] eqn:Hbody;
    try (eexists; reflexivity).
  destruct (sound_step st st' Hs Hbody) as [Hs' Hmove].
  apply IH; [assumption|lia].
Qed.

(** A pass always ends, and it is left from a sound state in which
    everything kept by the full iterations still holds. *)
Lemma pass_ends_with (P : state -> Prop) (log0 : list record) :
  P (initial log0) ->
  (forall st st', sound data st -> P st ->
                  loop_body w output_dir data st = Continue st' -> P st') ->
  exists e st0,
    pass w output_dir data log0 = Some e /\
    sound data st0 /\ P st0 /\ leaves w output_dir data st0 e.
Proof.
  intros Hinit Hkeep. unfold pass.
  destruct (scan_loop_terminates (List.length data) (initial log0))
    as [e He].
  { apply sound_initial. }
  { simpl. unfold len. lia. }
  exists e.
  destruct (scan_loop_invariant (fun st => sound data st /\ P st))
    with (3 := He) as (st0 & [Hs HP] & Hl).
  - intros st st' [Hs HP] _ Hbody. split.
    + apply (sound_step st st' Hs Hbody).
    + apply (Hkeep st st' Hs HP Hbody).
  - split; [apply sound_initial|assumption].
  - exists st0. split; [exact He|]. split; [assumption|].
    split; assumption.
Qed.

Lemma pass_ends (log0 : list record) :
  exists e st0,
    pass w output_dir data log0 = Some e /\
    sound data st0 /\ leaves w output_dir data st0 e.
Proof.
  destruct (pass_ends_with (fun _ => True) log0) as (e & st0 & H);
    [exact I|intros; exact I|].
  exists e, st0. tauto.
Qed.

(** The four ways the loop is left. *)
Lemma leaves_cases (st0 : state) (e : loop_exit) :
  0 <= pos st0 -> leaves w output_dir data st0 e ->
  (len data <= pos st0 /\ e = Halted st0 Exhausted)
  \/ (pos st0 < len data /\ find_next_icon data (pos st0) = -1 /\
      e = Halted {| pos := -1; icon_count := icon_count st0;
                    written := written st0; log := log st0;
                    cursor := cursor st0 ++ [-1] |} NotFound)
  \/ (exists p err,
        pos st0 < len data /\ find_next_icon data (pos st0) = p /\
        pos st0 + 4 <= p <= len data /\ read_chunk data p = inl err /\
        e = Halted {| pos := p; icon_count := icon_count st0;
                      written := written st0;
                      log := log st0 ++ [(WARNING, Malformed err)];
                      cursor := cursor st0 ++ [p] |} (BadChunk err))
  \/ (exists p n,
        pos st0 < len data /\ find_next_icon data (pos st0) = p /\
        pos st0 + 4 <= p <= len data /\
        read_chunk data p = inr (n, slice data p (p + n)) /\
        write_ok w (icon_path output_dir (icon_count st0)) (slice data p (p + n)) = false /\
        e = Aborted {| pos := p; icon_count := icon_count st0;
                       written := written st0;
                       log := log st0 ++ [(ERROR, WriteFailed)];
                       cursor := cursor st0 ++ [p] |}).
Proof.
  intros Hpos. unfold leaves, loop_body.
  destruct (Z.ltb_spec (pos st0) (len data)) as [Hlt|Hge];
    [|intros ->; left; split; [lia|reflexivity]].
  destruct (Z.eqb_spec (find_next_icon data (pos st0)) (-1)) as [Heq|Hfound].
  { intros ->. right; left. rewrite Heq. repeat split; assumption. }
  destruct (find_next_icon_found data _ _ Hpos eq_refl Hfound) as [Hp _].
  destruct (read_chunk data _) as [err|[n d]] eqn:Hread.
  { intros ->. right; right; left.
    exists (find_next_icon data (pos st0)), err.
    repeat split; try assumption; lia. }
  destruct (read_chunk_accepted data (find_next_icon data (pos st0)) n d
              ltac:(lia) Hread) as (_ & _ & _ & _ & -> & _).
  destruct (write_ok w _ _) eqn:Hwrite; [contradiction|].
  intros ->. right; right; right.
  exists (find_next_icon data (pos st0)), n.
  repeat split; try assumption; lia.
Qed.

End Iteration.

(** ** The chunk reader inside the loop *)

(** C2 -- chunk-reader failure conditions.  At a position [offset] returned
    by the scanner, the read fails with [IncompleteHeader] exactly when
    [offset + 4 > len(data)]; otherwise the four bytes at [offset] decode as a
    big-endian unsigned 32-bit [icon_data_size] and the read fails with
    [OversizedChunk] exactly when [offset + icon_data_size > len(data)]; and
    on any failure the loop stops at once, with the counter and the files as
    they were and one warning logged. *)
Theorem read_chunk_failures (data : bytes) (start offset : Z) :
  0 <= start -> find_next_icon data start = offset -> offset <> -1 ->
  (read_chunk data offset = inl IncompleteHeader <-> offset + 4 > len data)
  /\ (offset + 4 <= len data ->
      exists b0 b1 b2 b3 icon_data_size,
        slice data offset (offset + 4) = [b0; b1; b2; b3] /\
        icon_data_size = byte_val b0 * 2 ^ 24 + byte_val b1 * 2 ^ 16
                         + byte_val b2 * 2 ^ 8 + byte_val b3 /\
        unpack_be32 (slice data offset (offset + 4)) = Some icon_data_size /\
        0 <= icon_data_size < 2 ^ 32 /\
        (read_chunk data offset = inl OversizedChunk
         <-> offset + icon_data_size > len data))
  /\ (forall w output_dir st budget err,
        pos st = start -> start < len data ->
        read_chunk data offset = inl err ->
        scan_loop (S budget) w output_dir data st
        = Some (Halted {| pos := offset; icon_count := icon_count st;
                          written := written st;
                          log := log st ++ [(WARNING, Malformed err)];
                          cursor := cursor st ++ [offset] |}
                       (BadChunk err))).
Proof.
  intros Hstart Hfind Hfound.
  destruct (find_next_icon_found data start offset Hstart Hfind Hfound)
    as [Hoff _].
  split; [apply read_chunk_incomplete|]. split.
  - intros Hhdr.
    destruct (unpack_be32_four (slice data offset (offset + 4)))
      as (b0 & b1 & b2 & b3 & Hbytes & Hun).
    { rewrite slice_inside_len; lia. }
    exists b0, b1, b2, b3. eexists. split; [exact Hbytes|].
    split; [reflexivity|]. split; [exact Hun|]. split.
    + apply unpack_be32_some in Hun. apply Hun.
    + apply read_chunk_oversized; assumption.
  - intros w output_dir st budget err Hst Hlt Hread. cbn [scan_loop].
    destruct (Z.ltb_spec (pos st) (len data)); [|lia].
    unfold loop_body. rewrite Hst, Hfind.
    destruct (Z.eqb_spec offset (-1)); [contradiction|].
    rewrite Hread. reflexivity.
Qed.

Lemma read_chunk_failures_witness :
  let data := ICNS_HEADER ++ [xff; xff; xff; xff] in
  read_chunk data 4 = inl OversizedChunk <-> 4 + (2 ^ 32 - 1) > len data.
Proof.
  intros data.
  destruct (read_chunk_failures data 0 4 ltac:(lia) eq_refl ltac:(lia))
    as (_ & Hover & _).
  destruct (Hover ltac:(vm_compute; discriminate))
    as (b0 & b1 & b2 & b3 & n & Hbytes & -> & _ & _ & Hiff).
  injection Hbytes as <- <- <- <-. exact Hiff.
Defined.

(** C10 -- the [struct.error] branch cannot be reached.  At a position
    returned by the scanner with four bytes left, the length field always
    decodes; so the reader never fails with [InvalidSize], and no pass is
    left through that branch or logs its warning. *)
Theorem invalid_size_unreachable (data : bytes) :
  (forall start offset,
     0 <= start -> find_next_icon data start = offset -> offset <> -1 ->
     offset + 4 <= len data ->
     exists icon_data_size,
       unpack_be32 (slice data offset (offset + 4)) = Some icon_data_size)
  /\ (forall start offset,
        0 <= start -> find_next_icon data start = offset -> offset <> -1 ->
        read_chunk data offset <> inl InvalidSize)
  /\ (forall w output_dir,
      exists e,
        pass w output_dir data [] = Some e /\
        (forall st, e <> Halted st (BadChunk InvalidSize)) /\
        ~ In (WARNING, Malformed InvalidSize) (log (exit_state e))).
Proof.
  split; [|split].
  - intros start offset Hstart Hfind Hfound Hhdr.
    destruct (find_next_icon_found data start offset Hstart Hfind Hfound)
      as [Hoff _].
    destruct (header_decodes data offset) as (n & Hun & _); try lia.
    exists n. exact Hun.
  - intros start offset Hstart Hfind Hfound.
    destruct (find_next_icon_found data start offset Hstart Hfind Hfound)
      as [Hoff _].
    apply read_chunk_never_invalid. lia.
  - intros w output_dir.
    destruct (pass_ends_with w output_dir data
                (fun st => ~ In (WARNING, Malformed InvalidSize) (log st)) [])
      as (e & st0 & Hpass & Hs & Hlog & Hl).
    { simpl. tauto. }
    { intros st st' Hs Hno Hbody.
      destruct (loop_body_continue w output_dir data st st'
                  (proj1 (sound_pos _ _ Hs)) Hbody)
        as (p & n & _ & _ & _ & _ & ->).
      simpl. rewrite in_app_iff. simpl. intros [Hin|[Heq|[]]];
        [tauto|discriminate]. }
    exists e. split; [exact Hpass|].
    pose proof (sound_pos _ _ Hs) as Hpos.
    destruct (leaves_cases w output_dir data st0 e (proj1 Hpos) Hl)
      as [[_ ->]|[(_ & _ & ->)|[(p & err & _ & _ & Hp & Hread & ->)
                               |(p & n & _ & _ & _ & _ & _ & ->)]]];
      simpl; (split; [intros st; try discriminate|]);
      rewrite ?in_app_iff; simpl; try tauto.
    + intros [= _ ->].
      apply (read_chunk_never_invalid data p ltac:(lia) Hread).
    + intros [Hin|[[= ->]|[]]]; [tauto|].
      apply (read_chunk_never_invalid data p ltac:(lia) Hread).
    + intros [Hin|[Heq|[]]]; [tauto|discriminate].
Qed.

Lemma invalid_size_unreachable_witness :
  exists icon_data_size,
    unpack_be32 (slice (ICNS_HEADER ++ [x00; x00; x00; x04]) 4 (4 + 4))
    = Some icon_data_size.
Proof.
  apply (proj1 (invalid_size_unreachable
                  (ICNS_HEADER ++ [x00; x00; x00; x04])) 0 4);
    vm_compute; congruence.
Defined.

(** C9 -- a small length is accepted.  When the length field after a marker
    decodes to a value below 4 (0 included) that fits in the buffer, the
    reader accepts the chunk: the slice has exactly that many bytes (none for
    0), and the iteration writes it, counts it and moves the cursor on by that
    length (or returns [False] if the write itself fails). *)
Theorem small_chunk_accepted (w : world) (output_dir : string) (data : bytes)
    (st : state) (offset icon_data_size : Z) :
  0 <= pos st ->
  find_next_icon data (pos st) = offset -> offset <> -1 ->
  unpack_be32 (slice data offset (offset + 4)) = Some icon_data_size ->
  icon_data_size < 4 ->
  offset + icon_data_size <= len data ->
  let chunk := slice data offset (offset + icon_data_size) in
  let name := icon_path output_dir (icon_count st) in
  read_chunk data offset = inr (icon_data_size, chunk)
  /\ len chunk = icon_data_size
  /\ (icon_data_size = 0 -> chunk = [])
  /\ loop_body w output_dir data st
     = if write_ok w name chunk then
         Continue {| pos := offset + icon_data_size;
                     icon_count := icon_count st + 1;
                     written := written st
                                ++ [{| icon_filename := name;
                                       icon_offset := offset;
                                       icon_data := chunk |}];
                     log := log st
                            ++ [(INFO, Extracted (icon_count st + 1) name)];
                     cursor := cursor st ++ [offset; offset + icon_data_size]
                  |}
       else
         ReturnFalse {| pos := offset; icon_count := icon_count st;
                        written := written st;
                        log := log st ++ [(ERROR, WriteFailed)];
                        cursor := cursor st ++ [offset] |}.
Proof.
  intros Hpos Hfind Hfound Hun Hsmall Hfit chunk name.
  destruct (find_next_icon_found data _ _ Hpos Hfind Hfound) as [Hoff _].
  assert (Hread : read_chunk data offset = inr (icon_data_size, chunk)).
  { apply read_chunk_accepts; [lia|assumption|assumption]. }
  destruct (read_chunk_accepted data offset _ _ ltac:(lia) Hread)
    as (_ & _ & Hn & _ & _ & Hlen).
  split; [exact Hread|]. split; [exact Hlen|]. split.
  - intros Hzero. destruct chunk; [reflexivity|].
    unfold len in Hlen. simpl in Hlen. lia.
  - unfold loop_body. rewrite Hfind.
    destruct (Z.eqb_spec offset (-1)); [contradiction|].
    rewrite Hread. reflexivity.
Qed.

Lemma small_chunk_accepted_witness :
  let data := ICNS_HEADER ++ [x00; x00; x00; x00; x2a] in
  let w := {| path_exists := fun _ => true; access_r := fun _ => true;
              file_data := fun _ => data; write_ok := fun _ _ => true |} in
  read_chunk data 4 = inr (0, []) /\
  loop_body w "out" data (initial [])
  = Continue {| pos := 4; icon_count := 1;
                written := [{| icon_filename := "out/icon_0000.icns";
                               icon_offset := 4; icon_data := [] |}];
                log := [(INFO, Extracted 1 "out/icon_0000.icns")];
                cursor := [0; 4; 4] |}.
Proof.
  intros data w.
  destruct (small_chunk_accepted w "out" data (initial []) 4 0)
    as (Hread & _ & _ & Hbody);
    try (vm_compute; congruence).
  split; [exact Hread|exact Hbody].
Defined.

(** ** Written icons *)


Lemma StronglySorted_map {A B : Type} (R : A -> A -> Prop)
    (R' : B -> B -> Prop) (f : A -> B) (l : list A) :
  (forall a b, In a l -> In b l -> R a b -> R' (f a) (f b)) ->
  StronglySorted R l -> StronglySorted R' (map f l).
Proof.
  intros Hf Hs. induction Hs as [|a l Hs IH Ha]; simpl; constructor.
  - apply IH. intros x y Hx Hy. apply Hf; right; assumption.
  - apply Forall_forall. intros y Hy. apply in_map_iff in Hy as (b & <- & Hb).
    rewrite Forall_forall in Ha. apply Hf; simpl; auto.
Qed.

Lemma StronglySorted_weaken {A : Type} (R R' : A -> A -> Prop) (l : list A) :
  (forall a b, In a l -> In b l -> R a b -> R' a b) ->
  StronglySorted R l -> StronglySorted R' l.
Proof.
  intros Hf Hs. rewrite <- (map_id l).
  apply (StronglySorted_map R R' (fun a => a)); assumption.
Qed.

(** More budget changes nothing once the loop has ended. *)
Lemma scan_loop_budget (w : world) (output_dir : string) (data : bytes)
    (e : loop_exit) (budget : nat) : forall st budget',
  scan_loop budget w output_dir data st = Some e -> (budget <= budget')%nat ->
  scan_loop budget' w output_dir data st = Some e.
Proof.
  induction budget as [|k IH]; intros st budget' Hrun Hle;
    cbn [scan_loop] in Hrun.
  - destruct budget'; cbn [scan_loop]; destruct (pos st <? len data);
      congruence.
  - destruct budget' as [|k']; [lia|]. cbn [scan_loop].
    destruct (pos st <? len data); [|assumption].
    destruct (loop_body w output_dir data st); try assumption.
    apply IH; [assumption|lia].
Qed.

(** The state in which the loop is left holds the files of the sound state
    it was left from. *)
Lemma exit_files (w : world) (output_dir : string) (data : bytes)
    (log0 : list record) :
  exists e st0,
    pass w output_dir data log0 = Some e /\ sound data st0 /\
    leaves w output_dir data st0 e /\
    written (exit_state e) = written st0 /\
    icon_count (exit_state e) = icon_count st0.
Proof.
  destruct (pass_ends w output_dir data log0) as (e & st0 & Hpass & Hs & Hl).
  exists e, st0. destruct (leaves_keeps w output_dir data st0 e Hl).
  repeat (split; try assumption).
Qed.



(** C6 -- monotonic cursor and termination.  A pass ends within one
    iteration per byte of the buffer.  The values held by [pos] never
    decrease, the only exception being the scanner's [-1], which ends the
    pass; and the position after each written chunk is strictly beyond the
    position after the previous one (in particular beyond the chunk's own
    offset when its length is at least 1). *)
Theorem cursor_monotone_and_pass_ends (w : world) (output_dir : string)
    (data : bytes) (log0 : list record) :
  exists e,
    scan_loop (List.length data) w output_dir data (initial log0) = Some e
    /\ (forall budget, (List.length data <= budget)%nat ->
        scan_loop budget w output_dir data (initial log0) = Some e)
    /\ (exists offsets,
          cursor (exit_state e)
          = offsets ++ (if pos (exit_state e) =? -1 then [-1] else []) /\
          StronglySorted Z.le offsets /\
          Forall (fun q => 0 <= q <= len data) offsets)
    /\ StronglySorted Z.lt (map icon_end (written (exit_state e)))
    /\ Forall (fun c => 1 <= len (icon_data c) -> icon_offset c < icon_end c)
              (written (exit_state e)).
Proof.
  destruct (exit_files w output_dir data log0)
    as (e & st0 & Hpass & Hs & Hl & Hfiles & _).
  exists e. split; [exact Hpass|]. split.
  { intros budget Hle. eapply scan_loop_budget; eassumption. }
  rewrite Hfiles.
  destruct Hs as [Hpos _ _ Hbefore Hapart _ _ Hsorted Hcur].
  assert (Hin : Forall (fun q => 0 <= q <= len data) (cursor st0)).
  { widen Hcur. }
  split; [|split].
  - destruct (leaves_cases w output_dir data st0 e (proj1 Hpos) Hl)
      as [[Hge ->]|[(_ & _ & ->)|[(p & err & _ & _ & Hp & _ & ->)
                                 |(p & n & _ & _ & Hp & _ & _ & ->)]]];
      simpl.
    + exists (cursor st0). destruct (Z.eqb_spec (pos st0) (-1)); [lia|].
      rewrite app_nil_r. repeat split; assumption.
    + exists (cursor st0). repeat split; assumption.
    + exists (cursor st0 ++ [p]). destruct (Z.eqb_spec p (-1)); [lia|].
      rewrite app_nil_r. split; [reflexivity|]. split.
      * apply StronglySorted_snoc; [assumption|].
        widen Hcur.
      * apply Forall_app. split; [assumption|]. repeat constructor; lia.
    + exists (cursor st0 ++ [p]). destruct (Z.eqb_spec p (-1)); [lia|].
      rewrite app_nil_r. split; [reflexivity|]. split.
      * apply StronglySorted_snoc; [assumption|].
        widen Hcur.
      * apply Forall_app. split; [assumption|]. repeat constructor; lia.
  - eapply StronglySorted_map; [|exact Hapart]. simpl.
    intros a b _ _ Hab. unfold icon_end in *.
    pose proof (len_nonneg (icon_data b)). lia.
  - apply Forall_forall. intros c _ Hc. unfold icon_end. lia.
Qed.

(** Where the loop is left, the values held by [pos] have never decreased
    and lie in the buffer, the scanner's [-1] apart. *)
Lemma exit_cursor (w : world) (output_dir : string) (data : bytes)
    (st0 : state) (e : loop_exit) :
  sound data st0 -> leaves w output_dir data st0 e ->
  exists offsets,
    cursor (exit_state e)
    = offsets ++ (if pos (exit_state e) =? -1 then [-1] else []) /\
    StronglySorted Z.le offsets /\
    Forall (fun q => 0 <= q <= len data) offsets.
Proof.
  intros Hs Hl.
  destruct Hs as [Hpos _ _ _ _ _ _ Hsorted Hcur].
  assert (Hin : Forall (fun q => 0 <= q <= len data) (cursor st0)).
  { widen Hcur. }
  assert (Hstop : forall p, pos st0 + 4 <= p <= len data ->
            exists offsets,
              cursor st0 ++ [p]
              = offsets ++ (if p =? -1 then [-1] else []) /\
              StronglySorted Z.le offsets /\
              Forall (fun q => 0 <= q <= len data) offsets).
  { intros p Hp. exists (cursor st0 ++ [p]).
    destruct (Z.eqb_spec p (-1)); [lia|]. rewrite app_nil_r.
    split; [reflexivity|]. split.
    - apply StronglySorted_snoc; [assumption|]. widen Hcur.
    - apply Forall_app. split; [assumption|]. repeat constructor; lia. }
  destruct (leaves_cases w output_dir data st0 e (proj1 Hpos) Hl)
    as [[Hge ->]|[(_ & _ & ->)|[(p & err & _ & _ & Hp & _ & ->)
                               |(p & n & _ & _ & Hp & _ & _ & ->)]]];
    simpl.
  - exists (cursor st0). destruct (Z.eqb_spec (pos st0) (-1)); [lia|].
    rewrite app_nil_r. repeat split; assumption.
  - exists (cursor st0). repeat split; assumption.
  - apply Hstop. exact Hp.
  - apply Hstop. exact Hp.
Qed.

(** C7 -- no overlap, no overread.  Every chunk written in a pass lies inside
    the buffer with the length decoded for it: its length field is complete,
    its offset plus the decoded length does not exceed the length of the
    buffer, and its data is that many bytes, none cut off.  Each chunk ends
    before any later one starts.  Every position the loop scans or reads from
    lies in the buffer; the reader accepts only when the bounds of both its
    slices are inside the buffer; a position returned by the scanner is the
    end of a marker that is inside the buffer; and a slice taken at a
    position of the buffer never reaches beyond its end. *)
Theorem chunks_inside_and_apart (w : world) (output_dir : string)
    (data : bytes) (log0 : list record) :
  exists e,
    pass w output_dir data log0 = Some e
    /\ Forall (fun c =>
                 exists icon_data_size,
                   unpack_be32
                     (slice data (icon_offset c) (icon_offset c + 4))
                   = Some icon_data_size /\
                   4 <= icon_offset c /\
                   icon_offset c + 4 <= len data /\
                   icon_offset c + icon_data_size <= len data /\
                   icon_data c
                   = slice data (icon_offset c)
                       (icon_offset c + icon_data_size) /\
                   len (icon_data c) = icon_data_size)
              (written (exit_state e))
    /\ StronglySorted (fun a b => icon_end a <= icon_offset b)
                      (written (exit_state e))
    /\ (exists offsets,
          cursor (exit_state e)
          = offsets ++ (if pos (exit_state e) =? -1 then [-1] else []) /\
          Forall (fun q => 0 <= q <= len data) offsets)
    /\ (forall offset icon_data_size d,
          0 <= offset ->
          read_chunk data offset = inr (icon_data_size, d) ->
          offset + 4 <= len data /\
          offset + icon_data_size <= len data /\
          len d = icon_data_size)
    /\ (forall start_pos o,
          0 <= start_pos -> find_next_icon data start_pos = o -> o <> -1 ->
          start_pos + 4 <= o <= len data /\ marker_at data (o - 4))
    /\ (forall lo hi, 0 <= lo <= len data ->
        lo + len (slice data lo hi) <= len data).
Proof.
  destruct (exit_files w output_dir data log0)
    as (e & st0 & Hpass & Hs & Hl & Hfiles & _).
  exists e. split; [exact Hpass|]. rewrite Hfiles.
  destruct (exit_cursor w output_dir data st0 e Hs Hl)
    as (offsets & Hcursor & _ & Hin).
  destruct Hs as [Hpos _ Hacc Hbefore Hapart _ _ _ _].
  split; [|split; [|split; [|split; [|split]]]].
  - apply Forall_forall. intros c Hc.
    rewrite Forall_forall in Hacc, Hbefore.
    destruct (Hbefore c Hc) as [Hoff Hend].
    destruct (Hacc c Hc) as (_ & n & Hun & Hfit & Hdata & Hlen).
    destruct (decoded_header_inside data (icon_offset c) n ltac:(lia) Hun)
      as [Hhdr _].
    exists n. repeat split; assumption.
  - eapply StronglySorted_weaken; [|exact Hapart]. simpl. intros; lia.
  - exists offsets. split; assumption.
  - intros offset n d Hoff Hread.
    destruct (read_chunk_accepted data offset n d Hoff Hread)
      as (_ & Hhdr & _ & Hfit & _ & Hlen).
    repeat split; assumption.
  - intros start_pos o Hstart Hfind Hfound.
    apply (find_next_icon_found data start_pos o Hstart Hfind Hfound).
  - intros lo hi Hlo. pose proof (slice_bounded data lo hi). lia.
Qed.

(** ** [extract_icons] as a whole *)

(** No file is written from a buffer too short to hold a marker and a length
    field. *)
Lemma sound_short_buffer (data : bytes) (st : state) :
  sound data st -> len data < 8 -> written st = [].
Proof.
  intros Hs Hshort. destruct (written st) as [|c l] eqn:Hw; [reflexivity|].
  pose proof (sound_accepted _ _ Hs) as Hacc.
  pose proof (sound_before _ _ Hs) as Hbefore.
  rewrite Hw in Hacc, Hbefore.
  inversion Hacc as [|? ? (_ & n & Hun & _) _]; subst.
  inversion Hbefore as [|? ? [Hoff _] _]; subst.
  destruct (decoded_header_inside data (icon_offset c) n ltac:(lia) Hun).
  lia.
Qed.

Lemma quiet_prelude (w : world) (output_dir : string) :
  quiet (initial (prelude w output_dir)).
Proof.
  intros err. unfold prelude. simpl.
  destruct (negb (path_exists w output_dir)); simpl;
    intuition discriminate.
Qed.

Lemma quiet_step (w : world) (output_dir : string) (data : bytes)
    (st st' : state) :
  sound data st -> quiet st ->
  loop_body w output_dir data st = Continue st' -> quiet st'.
Proof.
  intros Hs Hq Hbody err.
  destruct (loop_body_continue w output_dir data st st'
              (proj1 (sound_pos _ _ Hs)) Hbody)
    as (p & n & _ & _ & _ & _ & ->).
  simpl. rewrite in_app_iff. simpl. intros [Hin|[Heq|[]]].
  - apply (Hq err Hin).
  - discriminate.
Qed.

(** A warning among the records of a quiet state followed by one record that
    is not a warning: there is none. *)
Ltac no_warning Hq :=
  let err := fresh "err" in
  let Hin := fresh "Hin" in
  intros [err Hin]; apply in_app_iff in Hin as [Hin|[[=]|[]]];
  exfalso; apply (Hq err Hin).

(** C4, as the code has it -- the reported result.  For an input that is
    accepted, [extract_icons] returns [True] however the loop ends, unless a
    write failed: it returns [True] both when the buffer was exhausted and
    when the pass stopped at a malformed chunk.  When it returns [True] its
    last record is "Extraction complete" with the number of files written; a
    stop at a malformed chunk shows only as a logged warning. *)
Theorem returned_true_however_the_pass_ends (w : world)
    (datfile output_dir : string) :
  path_exists w datfile = true -> access_r w datfile = true ->
  4 <= len (file_data w datfile) ->
  exists r e,
    extract_icons w datfile output_dir = Some r
    /\ left_loop r = Some e
    /\ pass w output_dir (file_data w datfile) (prelude w output_dir) = Some e
    /\ files r = written (exit_state e)
    /\ (returned r = true <-> exists st h, e = Halted st h)
    /\ (returned r = false <-> exists st, e = Aborted st)
    /\ (returned r = true ->
        messages r
        = log (exit_state e)
          ++ [(INFO, Complete (Z.of_nat (List.length (files r))))])
    /\ (malformed_exit e = true
        <-> exists err, In (WARNING, Malformed err) (messages r))
    /\ (malformed_exit e = true -> returned r = true).
Proof.
  intros Hexists Hread Hlen. unfold extract_icons.
  rewrite Hexists, Hread. simpl negb. cbv iota.
  destruct (Z.eqb_spec (len (file_data w datfile)) 0) as [|Hne]; [lia|].
  change (len ICNS_HEADER) with 4.
  destruct (Z.ltb_spec (len (file_data w datfile)) 4) as [|Hge]; [lia|].
  destruct (pass_ends_with w output_dir (file_data w datfile) quiet
              (prelude w output_dir))
    as (e & st0 & Hpass & Hs & Hq & Hl).
  { apply quiet_prelude. }
  { apply quiet_step. }
  rewrite Hpass.
  pose proof (sound_pos _ _ Hs) as Hpos.
  pose proof (sound_count _ _ Hs) as Hcount.
  destruct (leaves_cases w output_dir _ st0 e (proj1 Hpos) Hl)
    as [[_ ->]|[(_ & _ & ->)|[(p & err & _ & _ & _ & _ & ->)
                             |(p & n & _ & _ & _ & _ & _ & ->)]]];
    eexists; eexists; (split; [reflexivity|]); simpl;
    (split; [reflexivity|]); (split; [reflexivity|]);
    (split; [reflexivity|]).
  1, 2: split; [split; eauto|]; split; [split; [discriminate|]|];
    [intros [st [=]]|];
    (split; [intros _; rewrite Hcount; reflexivity|]);
    (split; [|discriminate]); split; [discriminate|no_warning Hq].
  - split; [split; eauto|]. split; [split; [discriminate|]|].
    { intros [st [=]]. }
    split; [intros _; rewrite Hcount; reflexivity|].
    split; [|reflexivity]. split; [|reflexivity].
    intros _. exists err. rewrite !in_app_iff. simpl. auto.
  - split; [split; [discriminate|intros (st & h & [=])]|].
    split; [split; eauto|]. split; [discriminate|].
    split; [|discriminate]. split; [discriminate|no_warning Hq].
Qed.

Lemma returned_true_however_the_pass_ends_witness :
  exists r e,
    extract_icons (world_with oversized_file) "in.dat" "out" = Some r
    /\ left_loop r = Some e
    /\ malformed_exit e = true
    /\ returned r = true
    /\ (exists err, In (WARNING, Malformed err) (messages r)).
Proof.
  destruct (returned_true_however_the_pass_ends
              (world_with oversized_file) "in.dat" "out"
              eq_refl eq_refl ltac:(vm_compute; congruence))
    as (r & e & Hrun & Hleft & Hpass & _ & _ & _ & _ & Hwarn & Htrue).
  exists r, e.
  assert (He : malformed_exit e = true).
  { vm_compute in Hpass. injection Hpass as <-. reflexivity. }
  split; [exact Hrun|]. split; [exact Hleft|]. split; [exact He|].
  split; [exact (Htrue He)|exact (proj1 Hwarn He)].
Defined.

(** C4, as the specification has it, fails: a four-byte file without a
    marker and a file whose only chunk is oversized give the same returned
    value and the same count, although the first pass ran to the end of the
    buffer and the second stopped at malformed data. *)
Lemma returned_value_same_for_clean_and_malformed :
  exists r1 r2 st1 st2,
    extract_icons (world_with no_marker_file) "in.dat" "out" = Some r1
    /\ extract_icons (world_with oversized_file) "in.dat" "out" = Some r2
    /\ left_loop r1 = Some (Halted st1 NotFound)
    /\ left_loop r2 = Some (Halted st2 (BadChunk OversizedChunk))
    /\ returned r1 = true /\ returned r2 = true
    /\ icon_count st1 = 0 /\ icon_count st2 = 0
    /\ files r1 = [] /\ files r2 = [].
Proof.
  do 4 eexists. split; [vm_compute; reflexivity|].
  split; [vm_compute; reflexivity|]. simpl.
  repeat split; reflexivity.
Qed.

(** What [extract_icons] does with a datfile that is missing, unreadable or
    of at most four bytes: refused before the loop below four bytes, scanned
    to no effect at four. *)
Lemma short_input_scanned_or_refused (w : world)
    (datfile output_dir : string) :
  path_exists w datfile = false \/ access_r w datfile = false
  \/ len (file_data w datfile) <= 4 ->
  exists r,
    extract_icons w datfile output_dir = Some r
    /\ files r = []
    /\ (path_exists w datfile = false \/ access_r w datfile = false
        \/ len (file_data w datfile) < 4 ->
        returned r = false /\ left_loop r = None
        /\ ~ In (INFO, Starting) (messages r))
    /\ (path_exists w datfile = true -> access_r w datfile = true ->
        len (file_data w datfile) = 4 ->
        returned r = true /\ In (INFO, Starting) (messages r)
        /\ exists st h, left_loop r = Some (Halted st h)).
Proof.
  intros Hbad. unfold extract_icons.
  destruct (path_exists w datfile) eqn:Hexists; simpl negb; cbv iota.
  2:{ eexists. split; [reflexivity|]. split; [reflexivity|].
      split; [|discriminate]. intros _. simpl. intuition discriminate. }
  destruct (access_r w datfile) eqn:Hread; simpl negb; cbv iota.
  2:{ eexists. split; [reflexivity|]. split; [reflexivity|].
      split; [|discriminate]. intros _. simpl. intuition discriminate. }
  destruct (Z.eqb_spec (len (file_data w datfile)) 0) as [Hzero|Hne].
  { eexists. split; [reflexivity|]. split; [reflexivity|].
    split; [|intros; lia]. intros _. simpl. intuition discriminate. }
  change (len ICNS_HEADER) with 4.
  destruct (Z.ltb_spec (len (file_data w datfile)) 4) as [Hlt|Hge].
  { eexists. split; [reflexivity|]. split; [reflexivity|].
    split; [|intros; lia]. intros _.
    simpl. split; [reflexivity|]. split; [reflexivity|].
    rewrite in_app_iff. destruct (negb (path_exists w output_dir)); simpl;
      intuition discriminate. }
  assert (Hfour : len (file_data w datfile) <= 4)
    by (destruct Hbad as [|[|]]; [discriminate|discriminate|assumption]).
  destruct (pass_ends_with w output_dir (file_data w datfile)
              (fun st => In (INFO, Starting) (log st))
              (prelude w output_dir))
    as (e & st0 & Hpass & Hs & Hstart & Hl).
  { unfold prelude. simpl. apply in_or_app. right. left. reflexivity. }
  { intros st st' Hs Hin Hbody.
    destruct (loop_body_continue w output_dir _ st st'
                (proj1 (sound_pos _ _ Hs)) Hbody)
      as (p & n & _ & _ & _ & _ & ->).
    simpl. apply in_or_app. left. exact Hin. }
  rewrite Hpass.
  pose proof (sound_short_buffer _ _ Hs ltac:(lia)) as Hnone.
  pose proof (sound_pos _ _ Hs) as Hpos.
  destruct (leaves_cases w output_dir _ st0 e (proj1 Hpos) Hl)
    as [[_ ->]|[(_ & _ & ->)|[(p & err & _ & _ & _ & _ & ->)
                             |(p & n & _ & _ & Hp & Hacc & _ & _)]]].
  4:{ exfalso.
      destruct (read_chunk_accepted _ p n _ ltac:(lia) Hacc)
        as (_ & Hhdr & _). lia. }
  all: eexists; (split; [reflexivity|]); simpl; (split; [exact Hnone|]);
    (split; [intros [|[|]]; try discriminate; lia|]);
    intros _ _ _; (split; [reflexivity|]);
    (split; [|eexists; eexists; reflexivity]);
    rewrite ?in_app_iff; auto.
Qed.

(** C5, as the specification has it, fails: a readable file of exactly four
    bytes (the marker alone) is not refused.  The loop is entered, stops at
    the incomplete header and [True] is returned. *)
Lemma four_byte_file_is_scanned :
  len (file_data (world_with marker_only_file) "in.dat") = 4
  /\ extract_icons (world_with marker_only_file) "in.dat" "out"
     = Some {| returned := true;
               messages := [(INFO, Starting);
                            (WARNING, Malformed IncompleteHeader);
                            (INFO, Complete 0)];
               made_dirs := [];
               files := [];
               left_loop :=
                 Some (Halted {| pos := 4; icon_count := 0; written := [];
                                 log := [(INFO, Starting);
                                         (WARNING, Malformed IncompleteHeader)];
                                 cursor := [0; 4] |}
                              (BadChunk IncompleteHeader)) |}.
Proof.
  split; reflexivity.
Qed.

(** ** The two-chunk scenario *)

(** A full iteration, when every write succeeds. *)
Lemma scan_loop_step (w : world) (output_dir : string) (data : bytes)
    (st : state) (budget : nat) (p n : Z) (d : bytes) :
  (forall name chunk, write_ok w name chunk = true) ->
  pos st < len data ->
  find_next_icon data (pos st) = p -> p <> -1 ->
  read_chunk data p = inr (n, d) ->
  let name := icon_path output_dir (icon_count st) in
  scan_loop (S budget) w output_dir data st
  = scan_loop budget w output_dir data
      {| pos := p + n; icon_count := icon_count st + 1;
         written := written st
                    ++ [{| icon_filename := name; icon_offset := p;
                           icon_data := d |}];
         log := log st ++ [(INFO, Extracted (icon_count st + 1) name)];
         cursor := cursor st ++ [p; p + n] |}.
Proof.
  intros Hwrite Hlt Hfind Hfound Hread name. cbn [scan_loop].
  destruct (Z.ltb_spec (pos st) (len data)); [|lia].
  unfold loop_body. rewrite Hfind.
  destruct (Z.eqb_spec p (-1)); [contradiction|].
  rewrite Hread, Hwrite. reflexivity.
Qed.

(** C8 -- the concrete scenario.  On the 22-byte buffer made of the marker,
    the length 8, four payload bytes, the marker, the length 6 and two payload
    bytes, two files are written: the 8 bytes at offsets 4 to 12 and the 6
    bytes at offsets 16 to 22.  The cursor ends at the length of the buffer,
    where the loop ends normally (the scanner finds nothing from there); no
    warning is logged and [True] is returned. *)
Theorem two_icon_scenario (w : world) (datfile output_dir : string)
    (p1 p2 p3 p4 q1 q2 : byte) :
  path_exists w datfile = true -> access_r w datfile = true ->
  file_data w datfile = two_icons p1 p2 p3 p4 q1 q2 ->
  (forall name chunk, write_ok w name chunk = true) ->
  len (two_icons p1 p2 p3 p4 q1 q2) = 22
  /\ exists r st,
       extract_icons w datfile output_dir = Some r
       /\ returned r = true
       /\ left_loop r = Some (Halted st Exhausted)
       /\ map (fun c => (icon_filename c, icon_offset c, icon_data c))
              (files r)
          = [(icon_path output_dir 0, 4,
              [x00; x00; x00; x08; p1; p2; p3; p4]);
             (icon_path output_dir 1, 16,
              [x00; x00; x00; x06; q1; q2])]
       /\ map icon_data (files r)
          = [slice (two_icons p1 p2 p3 p4 q1 q2) 4 12;
             slice (two_icons p1 p2 p3 p4 q1 q2) 16 22]
       /\ icon_count st = 2
       /\ pos st = len (two_icons p1 p2 p3 p4 q1 q2)
       /\ cursor st = [0; 4; 12; 16; 22]
       /\ find_next_icon (two_icons p1 p2 p3 p4 q1 q2) (pos st) = -1
       /\ (forall err, ~ In (WARNING, Malformed err) (messages r))
       /\ In (INFO, Complete 2) (messages r).
Proof.
  intros Hexists Hread Hdata Hwrite. split; [reflexivity|].
  unfold extract_icons. rewrite Hexists, Hread, Hdata. simpl negb.
  cbv iota.
  change (len (two_icons p1 p2 p3 p4 q1 q2) =? 0) with false.
  change (len (two_icons p1 p2 p3 p4 q1 q2) <? len ICNS_HEADER) with false.
  cbv iota. unfold pass.
  change (List.length (two_icons p1 p2 p3 p4 q1 q2)) with 22%nat.
  rewrite (scan_loop_step w output_dir _ _ _ 4 8
             [x00; x00; x00; x08; p1; p2; p3; p4] Hwrite);
    [|reflexivity|reflexivity|discriminate|reflexivity].
  rewrite (scan_loop_step w output_dir _ _ _ 16 6
             [x00; x00; x00; x06; q1; q2] Hwrite);
    [|reflexivity|reflexivity|discriminate|reflexivity].
  cbn [scan_loop pos]. change (16 + 6 <? len _) with false. cbv iota.
  eexists. eexists. split; [reflexivity|]. simpl.
  repeat split; try reflexivity.
  - intros err. unfold prelude. rewrite <- !app_assoc. rewrite !in_app_iff.
    destruct (negb (path_exists w output_dir)); simpl;
      intuition discriminate.
  - rewrite !in_app_iff. simpl. auto.
Qed.

Lemma two_icon_scenario_witness :
  exists r st,
    extract_icons (world_with (two_icons x01 x02 x03 x04 x05 x06))
                  "in.dat" "out" = Some r
    /\ returned r = true
    /\ left_loop r = Some (Halted st Exhausted)
    /\ map (fun c => (icon_filename c, icon_offset c, icon_data c))
           (files r)
       = [("out/icon_0000.icns"%string, 4,
           [x00; x00; x00; x08; x01; x02; x03; x04]);
          ("out/icon_0001.icns"%string, 16,
           [x00; x00; x00; x06; x05; x06])]
    /\ pos st = 22.
Proof.
  destruct (two_icon_scenario
              (world_with (two_icons x01 x02 x03 x04 x05 x06))
              "in.dat" "out" x01 x02 x03 x04 x05 x06
              eq_refl eq_refl eq_refl (fun _ _ => eq_refl))
    as (_ & r & st & Hrun & Hret & Hleft & Hfiles & _ & _ & Hpos & _).
  exists r, st. repeat split; assumption.
Defined.

(** ** [buffer_to_hex] *)

Section Hex.

Local Open Scope string_scope.

(** A byte is printed as two hexadecimal digits that read back as it. *)
Lemma format_02x_byte (b : byte) :
  exists c1 c2,
    format_02x (byte_val b) = String c1 (String c2 "") /\
    hex_pair c1 c2 = Some b.
Proof.
  destruct b; do 2 eexists; split; reflexivity.
Qed.

Lemma hex_pair_digits (c1 c2 : ascii) (b : byte) :
  hex_pair c1 c2 = Some b -> hex_val c1 <> None /\ hex_val c2 <> None.
Proof.
  unfold hex_pair. destruct (hex_val c1), (hex_val c2); try discriminate.
  intros _. split; discriminate.
Qed.

Lemma hex_val_not_space (c : ascii) : hex_val c <> None -> c <> " "%char.
Proof.
  intros Hc ->. apply Hc. reflexivity.
Qed.

(** How the text of a buffer is built from the text of its tail. *)
Lemma buffer_to_hex_cons (b : byte) (l : bytes) :
  buffer_to_hex (b :: l)
  = match l with
    | [] => format_02x (byte_val b)
    | _ :: _ => format_02x (byte_val b) ++ " " ++ buffer_to_hex l
    end.
Proof.
  destruct l; reflexivity.
Qed.

Lemma buffer_to_hex_more (b : byte) (l : bytes) :
  l <> [] ->
  buffer_to_hex (b :: l) = format_02x (byte_val b) ++ " " ++ buffer_to_hex l.
Proof.
  destruct l; [contradiction|reflexivity].
Qed.

Lemma string_length_append (a b : string) :
  String.length (a ++ b) = (String.length a + String.length b)%nat.
Proof.
  induction a as [|c a IH]; simpl; [reflexivity|]. rewrite IH. reflexivity.
Qed.

Lemma string_append_assoc (a b c : string) : (a ++ b) ++ c = a ++ b ++ c.
Proof.
  induction a as [|x a IH]; simpl; [reflexivity|]. rewrite IH. reflexivity.
Qed.

Lemma list_ascii_append (a b : string) :
  list_ascii_of_string (a ++ b)
  = (list_ascii_of_string a ++ list_ascii_of_string b)%list.
Proof.
  induction a as [|c a IH]; simpl; [reflexivity|]. rewrite IH. reflexivity.
Qed.

Lemma hex_to_buffer_step (c1 c2 : ascii) (b : byte) (rest : string) :
  hex_pair c1 c2 = Some b ->
  hex_to_buffer (String c1 (String c2 (String " " rest)))
  = option_map (cons b) (hex_to_buffer rest).
Proof.
  intros Hpair. simpl. rewrite Hpair. reflexivity.
Qed.

End Hex.

(** X1 -- the text of [buffer_to_hex] reads back as the buffer, so two
    different buffers never print alike. *)
Theorem buffer_to_hex_round_trip (buffer : bytes) :
  hex_to_buffer (buffer_to_hex buffer) = Some buffer
  /\ (forall other, buffer_to_hex other = buffer_to_hex buffer ->
      other = buffer).
Proof.
  assert (Hback : forall l, hex_to_buffer (buffer_to_hex l) = Some l).
  { induction l as [|b l IH]; [reflexivity|].
    rewrite buffer_to_hex_cons.
    destruct (format_02x_byte b) as (c1 & c2 & -> & Hpair).
    destruct l as [|b' l]; [simpl; rewrite Hpair; reflexivity|].
    change (String c1 (String c2 "") ++ " " ++ buffer_to_hex (b' :: l))%string
      with (String c1 (String c2 (String " " (buffer_to_hex (b' :: l))))).
    rewrite (hex_to_buffer_step c1 c2 b _ Hpair), IH. reflexivity. }
  split; [apply Hback|].
  intros other Heq. pose proof (Hback other) as Hother.
  rewrite Heq, Hback in Hother. congruence.
Qed.

(** The two characters printed for a byte are the digits of its high and
    low half. *)
Lemma format_02x_digits (b : byte) :
  exists c1 c2,
    format_02x (byte_val b) = String c1 (String c2 EmptyString) /\
    hex_val c1 = Some (Byte.to_N b / 16)%N /\
    hex_val c2 = Some (Byte.to_N b mod 16)%N.
Proof.
  destruct b; do 2 eexists; repeat split; reflexivity.
Qed.

(** X2 -- [buffer_to_hex] gives nothing for an empty buffer and otherwise
    three characters per byte less one.  The byte numbered [i] is printed at
    the characters [3 i] and [3 i + 1], as the lowercase hexadecimal digit of
    its high half followed by that of its low half, and a single space
    follows it unless it is the last byte. *)
Theorem buffer_to_hex_shape (buffer : bytes) :
  String.length (buffer_to_hex buffer) = (3 * List.length buffer - 1)%nat
  /\ (buffer = [] <-> buffer_to_hex buffer = ""%string)
  /\ (forall i b,
        nth_error buffer i = Some b ->
        exists c1 c2,
          String.get (3 * i) (buffer_to_hex buffer) = Some c1 /\
          String.get (3 * i + 1) (buffer_to_hex buffer) = Some c2 /\
          hex_val c1 = Some (Byte.to_N b / 16)%N /\
          hex_val c2 = Some (Byte.to_N b mod 16)%N /\
          ((S i < List.length buffer)%nat ->
           String.get (3 * i + 2) (buffer_to_hex buffer) = Some " "%char)
          /\ (S i = List.length buffer ->
              String.get (3 * i + 2) (buffer_to_hex buffer) = None)).
Proof.
  split; [|split].
  - induction buffer as [|b l IH]; [reflexivity|].
    rewrite buffer_to_hex_cons.
    destruct (format_02x_byte b) as (c1 & c2 & -> & _).
    destruct l as [|b' l]; [reflexivity|].
    rewrite !string_length_append, IH. simpl. lia.
  - split; [intros ->; reflexivity|].
    destruct buffer as [|b l]; [reflexivity|].
    rewrite buffer_to_hex_cons.
    destruct (format_02x_byte b) as (c1 & c2 & -> & _).
    destruct l; discriminate.
  - induction buffer as [|x l IH]; intros i b Hnth;
      [destruct i; discriminate|].
    destruct (format_02x_digits x) as (c1 & c2 & Hx & Hc1 & Hc2).
    destruct i as [|i].
    + injection Hnth as <-. exists c1, c2.
      rewrite buffer_to_hex_cons, Hx.
      destruct l as [|y l]; simpl.
      * repeat split; try assumption; try reflexivity. lia.
      * repeat split; try assumption; try reflexivity. lia.
    + simpl in Hnth. destruct l as [|y l]; [destruct i; discriminate|].
      destruct (IH i b Hnth) as (d1 & d2 & H1 & H2 & Hd1 & Hd2 & Hsp & Hend).
      exists d1, d2. rewrite (buffer_to_hex_more x (y :: l)) by discriminate.
      rewrite Hx.
      replace (3 * S i)%nat with (S (S (S (3 * i)))) by lia.
      change (String c1 (String c2 "") ++ " " ++ buffer_to_hex (y :: l))%string
        with (String c1 (String c2 (String " " (buffer_to_hex (y :: l))))).
      cbn [String.get Nat.add].
      repeat split; try assumption.
      * intros Hlt. apply Hsp. simpl in *. lia.
      * intros Hlast. apply Hend. simpl in *. lia.
Qed.

(** X3 -- the text of two buffers put together is the two texts with a space
    between them, when neither buffer is empty. *)
Theorem buffer_to_hex_app (a b : bytes) :
  a <> [] -> b <> [] ->
  buffer_to_hex (a ++ b)
  = (buffer_to_hex a ++ " " ++ buffer_to_hex b)%string.
Proof.
  intros Ha Hb. induction a as [|x a IH]; [contradiction|].
  destruct a as [|y a].
  - simpl app. rewrite buffer_to_hex_cons.
    destruct b; [contradiction|]. reflexivity.
  - change ((x :: y :: a) ++ b) with (x :: ((y :: a) ++ b)).
    rewrite (buffer_to_hex_more x ((y :: a) ++ b)) by discriminate.
    rewrite (buffer_to_hex_more x (y :: a)) by discriminate.
    rewrite IH by discriminate.
    rewrite !string_append_assoc. reflexivity.
Qed.

Lemma buffer_to_hex_app_witness :
  buffer_to_hex ([x69; x63] ++ [x6e; x73]) = "69 63 6e 73"%string.
Proof.
  rewrite (buffer_to_hex_app [x69; x63] [x6e; x73]);
    [reflexivity|discriminate|discriminate].
Defined.

(** ** More on the scanner *)

(** A buffer shorter than the marker never matches, wherever the scan
    starts. *)
Lemma find_loop_short (data : bytes) (budget : nat) : forall pos,
  len data < 4 -> find_loop budget data pos = -1.
Proof.
  induction budget as [|k IH]; intros pos Hshort; [reflexivity|].
  cbn [find_loop]. destruct (pos <? len data); [|reflexivity].
  destruct (bytes_eqb _ _) eqn:Hcmp; [|apply IH; assumption].
  apply bytes_eqb_eq in Hcmp. exfalso.
  assert (Hlen : len (slice data pos (pos + len ICNS_HEADER)) <= len data).
  { unfold slice, len. rewrite length_firstn, length_skipn. lia. }
  rewrite Hcmp in Hlen. change (len ICNS_HEADER) with 4 in Hlen. lia.
Qed.

(** X4 -- starting fewer than four bytes before the end of the buffer, or
    beyond it, [find_next_icon] finds nothing; and in a buffer shorter than
    the marker, the empty one included, it finds nothing whatever the start,
    negative starts included. *)
Theorem find_next_icon_near_end (data : bytes) (start_pos : Z) :
  len data - 3 <= start_pos \/ len data < 4 ->
  find_next_icon data start_pos = -1.
Proof.
  intros [Hnear|Hshort]; [|apply find_loop_short; assumption].
  destruct (Z.le_gt_cases 0 start_pos) as [Hpos|Hneg].
  - destruct (find_next_icon_spec data start_pos Hpos)
      as [(p & Hp & Hm & _)|[_ Hres]]; [|exact Hres].
    exfalso. apply (no_marker_near_end data start_pos Hnear p Hp Hm).
  - apply find_loop_short. lia.
Qed.

Lemma find_next_icon_near_end_witness :
  find_next_icon [x00; x69; x63; x6e; x73] 2 = -1
  /\ find_next_icon [] (-5) = -1
  /\ find_next_icon [x69; x63; x6e] (-1) = -1.
Proof.
  split; [|split].
  - apply (find_next_icon_near_end [x00; x69; x63; x6e; x73] 2).
    left. vm_compute. congruence.
  - apply (find_next_icon_near_end [] (-5)). right. reflexivity.
  - apply (find_next_icon_near_end [x69; x63; x6e] (-1)). right.
    reflexivity.
Defined.

(** X5 -- scanning can be resumed: started anywhere between [start_pos] and
    the marker found from [start_pos], the scanner returns the same position;
    and when nothing is found from [start_pos], nothing is found from any
    later start. *)
Theorem find_next_icon_resumes (data : bytes) (start_pos later : Z) :
  0 <= start_pos <= later ->
  (find_next_icon data start_pos = -1 -> find_next_icon data later = -1)
  /\ (find_next_icon data start_pos <> -1 ->
      later <= find_next_icon data start_pos - 4 ->
      find_next_icon data later = find_next_icon data start_pos).
Proof.
  intros [Hstart Hlater].
  destruct (find_next_icon_spec data start_pos Hstart)
    as [(p & Hp & Hm & Hfirst & Hres)|[Hnone Hres]];
    destruct (find_next_icon_spec data later ltac:(lia))
      as [(p' & Hp' & Hm' & Hfirst' & Hres')|[Hnone' Hres']];
    rewrite Hres, Hres'.
  - split; [intros Heq; pose proof (marker_at_inside _ _ Hm); lia|].
    intros _ Hle.
    destruct (Z.lt_trichotomy p p') as [Hlt|[->|Hgt]]; [|reflexivity|].
    + exfalso. apply (Hfirst' p); [lia|assumption].
    + exfalso. apply (Hfirst p'); [lia|assumption].
  - split; [reflexivity|]. intros _ Hle. exfalso.
    apply (Hnone' p); [lia|assumption].
  - split; [|congruence]. intros _. exfalso.
    apply (Hnone p'); [lia|assumption].
  - split; [reflexivity|congruence].
Qed.

Lemma find_next_icon_resumes_witness :
  let data := [x00; x00; x69; x63; x6e; x73; x00] in
  find_next_icon data 2 = find_next_icon data 0.
Proof.
  intros data.
  apply (proj2 (find_next_icon_resumes data 0 2 ltac:(lia)));
    vm_compute; congruence.
Defined.

(** X6 -- a negative start is not refused: Python counts it from the end of
    the buffer, so when a marker lies [-start_pos] bytes before the end (and
    more than four), [find_next_icon] answers [start_pos + 4], a negative
    number that is not a position after that marker. *)
Theorem find_next_icon_negative_start (data : bytes) (start_pos : Z) :
  start_pos + 4 < 0 -> 0 <= len data + start_pos ->
  marker_at data (len data + start_pos) ->
  find_next_icon data start_pos = start_pos + 4.
Proof.
  intros Hneg Hin Hm. unfold find_next_icon.
  destruct (Z.to_nat (len data - start_pos)) as [|k] eqn:Hbudget; [lia|].
  cbn [find_loop]. destruct (Z.ltb_spec start_pos (len data)); [|lia].
  apply marker_at_slice in Hm; [|assumption].
  assert (Hslice : slice data start_pos (start_pos + len ICNS_HEADER)
                   = slice data (len data + start_pos)
                       (len data + start_pos + len ICNS_HEADER)).
  { change (len ICNS_HEADER) with 4. unfold slice, clip.
    destruct (Z.ltb_spec start_pos 0); [|lia].
    destruct (Z.ltb_spec (start_pos + 4) 0); [|lia].
    destruct (Z.ltb_spec (len data + start_pos) 0); [lia|].
    destruct (Z.ltb_spec (len data + start_pos + 4) 0); [lia|].
    f_equal; [f_equal; lia|f_equal; lia]. }
  rewrite Hslice, Hm. reflexivity.
Qed.

Lemma find_next_icon_negative_start_witness :
  find_next_icon [x69; x63; x6e; x73; x01; x01; x01; x01; x01; x01] (-10)
  = -6.
Proof.
  apply (find_next_icon_negative_start
           [x69; x63; x6e; x73; x01; x01; x01; x01; x01; x01] (-10)).
  - reflexivity.
  - vm_compute. congruence.
  - exists [], [x01; x01; x01; x01; x01; x01]. split; reflexivity.
Defined.

(** ** Names, records and sizes along a pass *)

Lemma index_names_succ (output_dir : string) (n : nat) :
  index_names output_dir (S n)
  = index_names output_dir n ++ [icon_path output_dir (Z.of_nat n)].
Proof.
  unfold index_names. rewrite seq_S, map_app. reflexivity.
Qed.

Lemma extracted_records_succ (output_dir : string) (n : nat) :
  extracted_records output_dir (S n)
  = extracted_records output_dir n
    ++ [(INFO, Extracted (Z.of_nat n + 1)
                 (icon_path output_dir (Z.of_nat n)))].
Proof.
  unfold extracted_records. rewrite seq_S, map_app. reflexivity.
Qed.

Lemma total_size_snoc (l : list icon) (c : icon) :
  total_size (l ++ [c]) = total_size l + len (icon_data c).
Proof.
  unfold total_size. induction l as [|a l IH]; simpl; [lia|].
  rewrite IH. lia.
Qed.

Lemma total_size_nonneg (l : list icon) : 0 <= total_size l.
Proof.
  unfold total_size. induction l as [|a l IH]; simpl; [lia|].
  pose proof (len_nonneg (icon_data a)). lia.
Qed.

Lemma covered_more (l : list icon) (c : icon) (q : Z) :
  covered l q -> covered (l ++ [c]) q.
Proof.
  intros (a & Ha & Hq). exists a. split; [|assumption].
  apply in_or_app. left. assumption.
Qed.

Section Tidy.

Variables (w : world) (output_dir : string) (data : bytes).
Variable log0 : list record.

Lemma tidy_initial : tidy w output_dir data log0 (initial log0).
Proof.
  constructor; simpl; try reflexivity.
  - rewrite app_nil_r. reflexivity.
  - constructor.
  - intros q Hm Hq. apply marker_at_inside in Hm. lia.
Qed.

Lemma tidy_step (st st' : state) :
  sound data st -> tidy w output_dir data log0 st ->
  loop_body w output_dir data st = Continue st' ->
  tidy w output_dir data log0 st'.
Proof.
  intros Hs [Hnames Hlog Hwrites Hsize Hmarkers] Hbody.
  pose proof (sound_pos _ _ Hs) as Hpos.
  pose proof (sound_count _ _ Hs) as Hcount.
  destruct (loop_body_continue w output_dir data st st' (proj1 Hpos) Hbody)
    as (p & n & Hfind & Hfound & Hread & Hwrite & ->).
  destruct (find_next_icon_found data _ _ (proj1 Hpos) Hfind Hfound)
    as [Hp _].
  destruct (read_chunk_accepted data p n _ ltac:(lia) Hread)
    as (_ & _ & Hn & _ & _ & Hlen).
  constructor; simpl; rewrite ?length_app; simpl;
    rewrite ?Nat.add_1_r.
  - rewrite map_app, index_names_succ, Hnames, Hcount. reflexivity.
  - rewrite extracted_records_succ, Hlog, Hcount, app_assoc. reflexivity.
  - apply Forall_app. split; [assumption|]. repeat constructor.
    exact Hwrite.
  - rewrite total_size_snoc. simpl. lia.
  - intros q Hm Hq. destruct (Z.lt_ge_cases q (pos st)) as [Hlt|Hge].
    + apply covered_more. apply Hmarkers; assumption.
    + eexists. split; [apply in_or_app; right; left; reflexivity|].
      unfold icon_end. simpl. split; [|lia].
      destruct (find_next_icon_spec data (pos st) (proj1 Hpos))
        as [(p0 & _ & _ & Hfirst & Hres)|[_ Hres]]; [|congruence].
      destruct (Z.lt_ge_cases q p0) as [Hbefore|Hafter]; [|lia].
      exfalso. apply (Hfirst q); [lia|assumption].
Qed.

(** A pass always ends, left from a state that is sound and tidy. *)
Lemma pass_tidy :
  exists e st0,
    pass w output_dir data log0 = Some e /\
    sound data st0 /\ tidy w output_dir data log0 st0 /\
    leaves w output_dir data st0 e.
Proof.
  apply pass_ends_with; [apply tidy_initial|apply tidy_step].
Qed.

End Tidy.

(** Past its four checks, [extract_icons] is the loop followed by the
    report. *)
Lemma extract_icons_scans (w : world) (datfile output_dir : string) :
  usable w datfile ->
  extract_icons w datfile output_dir
  = option_map
      (report (if negb (path_exists w output_dir) then [output_dir] else []))
      (pass w output_dir (file_data w datfile) (prelude w output_dir)).
Proof.
  intros (Hexists & Hread & Hlen). unfold extract_icons.
  rewrite Hexists, Hread. simpl negb. cbv iota.
  destruct (Z.eqb_spec (len (file_data w datfile)) 0) as [|_]; [lia|].
  change (len ICNS_HEADER) with 4.
  destruct (Z.ltb_spec (len (file_data w datfile)) 4) as [|_]; [lia|].
  destruct (pass _ _ _ _) as [[st h|st]|]; reflexivity.
Qed.

(** Before them, it refuses the input. *)
Lemma extract_icons_refuses (w : world) (datfile output_dir : string) :
  ~ usable w datfile ->
  exists r,
    extract_icons w datfile output_dir = Some r /\
    returned r = false /\ files r = [] /\ left_loop r = None /\
    exists m, In m [DatMissing datfile; DatUnreadable datfile;
                    DatEmpty datfile; TooSmall] /\
              shown ERROR (messages r) = [(ERROR, m)] /\
              Forall (fun x => fst x <> DEBUG) (messages r).
Proof.
  intros Hbad. unfold extract_icons, usable in *.
  destruct (path_exists w datfile); simpl negb; cbv iota.
  2:{ eexists. repeat (split; [reflexivity|]). exists (DatMissing datfile). simpl.
      split; [auto|]. split; [reflexivity|].
      repeat constructor; discriminate. }
  destruct (access_r w datfile); simpl negb; cbv iota.
  2:{ eexists. repeat (split; [reflexivity|]). exists (DatUnreadable datfile). simpl.
      split; [auto|]. split; [reflexivity|].
      repeat constructor; discriminate. }
  destruct (Z.eqb_spec (len (file_data w datfile)) 0) as [|Hne].
  { eexists. repeat (split; [reflexivity|]). exists (DatEmpty datfile). simpl.
    split; [auto|]. split; [reflexivity|].
    repeat constructor; discriminate. }
  change (len ICNS_HEADER) with 4.
  destruct (Z.ltb_spec (len (file_data w datfile)) 4) as [|Hge].
  2:{ exfalso. apply Hbad. repeat split; [reflexivity..|assumption]. }
  eexists. repeat (split; [reflexivity|]). exists TooSmall. simpl.
  split; [auto|].
  destruct (negb (path_exists w output_dir)); simpl;
    (split; [reflexivity|repeat constructor; discriminate]).
Qed.

(** ** File names *)

Section Names.

Local Open Scope string_scope.

Lemma string_append_nil_r (a : string) : a ++ "" = a.
Proof.
  induction a as [|c a IH]; simpl; [reflexivity|]. rewrite IH. reflexivity.
Qed.

Lemma string_append_inv_head (a b c : string) : a ++ b = a ++ c -> b = c.
Proof.
  induction a as [|x a IH]; simpl; [auto|]. intros [= H]. auto.
Qed.

Lemma string_append_inv_tail (c : string) : forall a b,
  a ++ c = b ++ c -> a = b.
Proof.
  induction a as [|x a IH]; intros [|y b] H; simpl in H.
  - reflexivity.
  - exfalso. apply (f_equal String.length) in H. simpl in H.
    rewrite string_length_append in H. lia.
  - exfalso. apply (f_equal String.length) in H. simpl in H.
    rewrite string_length_append in H. lia.
  - injection H as -> H. f_equal. apply IH. exact H.
Qed.

(** The padding of a number: [k] zeros. *)
Lemma zeros_succ (k : nat) :
  String.concat "" (repeat "0" (S k))
  = String "0" (String.concat "" (repeat "0" k)).
Proof.
  simpl. destruct (repeat "0" k) eqn:Hk; reflexivity.
Qed.

Lemma zeros_length (k : nat) :
  String.length (String.concat "" (repeat "0" k)) = k.
Proof.
  induction k as [|k IH]; [reflexivity|]. rewrite zeros_succ. simpl.
  rewrite IH. reflexivity.
Qed.

(** Zeros in front do not change the number read. *)
Lemma parse_index_zeros (k : nat) (s : string) :
  parse_index (String.concat "" (repeat "0" k) ++ s) = parse_index s.
Proof.
  induction k as [|k IH]; [reflexivity|]. rewrite zeros_succ.
  unfold parse_index in *. simpl.
  destruct (NilEmpty.uint_of_string (_ ++ s)) as [d|];
    destruct (NilEmpty.uint_of_string s) as [d'|]; simpl in *;
    congruence.
Qed.

Lemma parse_index_digits (m : N) :
  parse_index (NilZero.string_of_uint (N.to_uint m)) = Some (Z.of_N m).
Proof.
  unfold parse_index.
  destruct (N.to_uint m) as [| | | | | | | | | |] eqn:Hd;
    try (rewrite <- Hd; unfold NilZero.string_of_uint; rewrite Hd;
         rewrite <- Hd, NilEmpty.usu; simpl;
         rewrite DecimalN.Unsigned.of_to; reflexivity).
  simpl. rewrite <- (DecimalN.Unsigned.of_to m), Hd. reflexivity.
Qed.

End Names.

(** X7 -- the number in a file name: a count that is not negative is printed
    with at least four characters and reads back as the count, zeros in front
    included; so different counts give different texts. *)
Theorem format_04d_round_trip (n : Z) :
  0 <= n ->
  parse_index (format_04d n) = Some n
  /\ (4 <= String.length (format_04d n))%nat
  /\ (forall m, 0 <= m -> format_04d m = format_04d n -> m = n).
Proof.
  assert (Hback : forall k, 0 <= k -> parse_index (format_04d k) = Some k).
  { intros k Hk. unfold format_04d.
    destruct (Z.ltb_spec k 0); [lia|]. simpl String.append.
    rewrite parse_index_zeros, parse_index_digits. f_equal. lia. }
  intros Hn. split; [apply Hback; assumption|]. split.
  - unfold format_04d. destruct (Z.ltb_spec n 0); [lia|].
    cbn [String.append]. rewrite string_length_append, zeros_length.
    change (String.length "") with 0%nat. lia.
  - intros m Hm Heq. pose proof (Hback m Hm) as Hread.
    rewrite Heq, (Hback n Hn) in Hread. congruence.
Qed.

Lemma format_04d_round_trip_witness :
  parse_index (format_04d 12345) = Some 12345
  /\ parse_index (format_04d 7) = Some 7.
Proof.
  split.
  - apply (format_04d_round_trip 12345). vm_compute. congruence.
  - apply (format_04d_round_trip 7). vm_compute. congruence.
Defined.

(** Different counts give different paths in the same directory. *)
Lemma icon_path_injective (output_dir : string) (a b : Z) :
  0 <= a -> 0 <= b ->
  icon_path output_dir a = icon_path output_dir b -> a = b.
Proof.
  intros Ha Hb. unfold icon_path, path_join.
  change (String.prefix "/" ("icon_" ++ format_04d a ++ ".icns")) with false.
  change (String.prefix "/" ("icon_" ++ format_04d b ++ ".icns")) with false.
  cbv iota. intros Heq.
  assert (Hname : (format_04d a ++ ".icns" = format_04d b ++ ".icns")%string).
  { destruct ((String.length output_dir =? 0)%nat
              || ends_with_slash output_dir).
    - apply string_append_inv_head in Heq.
      apply (string_append_inv_head "icon_") in Heq. exact Heq.
    - apply string_append_inv_head in Heq.
      apply (string_append_inv_head "/icon_") in Heq. exact Heq. }
  apply string_append_inv_tail in Hname.
  apply (proj2 (proj2 (format_04d_round_trip b Hb))); assumption.
Qed.

Lemma index_names_NoDup (output_dir : string) (n : nat) :
  NoDup (index_names output_dir n).
Proof.
  unfold index_names.
  apply NoDup_map_NoDup_ForallPairs; [|apply seq_NoDup].
  intros i j _ _ Heq. apply icon_path_injective in Heq; lia.
Qed.

(** ** More on a pass *)

(** X8 -- the files of a pass are named [icon_0000.icns], [icon_0001.icns],
    ... in the order they are written, under the output directory, and no two
    of them share a name: no file of a pass overwrites another. *)
Theorem file_names_numbered (w : world) (output_dir : string) (data : bytes)
    (log0 : list record) :
  exists e,
    pass w output_dir data log0 = Some e
    /\ map icon_filename (written (exit_state e))
       = index_names output_dir (List.length (written (exit_state e)))
    /\ NoDup (map icon_filename (written (exit_state e))).
Proof.
  destruct (pass_tidy w output_dir data log0)
    as (e & st0 & Hpass & _ & Ht & Hl).
  destruct (leaves_keeps w output_dir data st0 e Hl) as [Hfiles _].
  exists e. rewrite Hfiles. split; [exact Hpass|].
  pose proof (tidy_names _ _ _ _ _ Ht) as Hnames.
  split; [exact Hnames|]. rewrite Hnames. apply index_names_NoDup.
Qed.

(** X9 -- what a pass writes fits in what it reads: the bytes written, plus
    four for each file (its marker is not written), never exceed the length
    of the buffer. *)
Theorem written_bytes_bounded (w : world) (output_dir : string)
    (data : bytes) (log0 : list record) :
  exists e,
    pass w output_dir data log0 = Some e
    /\ total_size (written (exit_state e))
       + 4 * Z.of_nat (List.length (written (exit_state e)))
       <= len data
    /\ 4 * icon_count (exit_state e) <= len data.
Proof.
  destruct (pass_tidy w output_dir data log0)
    as (e & st0 & Hpass & Hs & Ht & Hl).
  destruct (leaves_keeps w output_dir data st0 e Hl) as [Hfiles Hcount].
  exists e. rewrite Hfiles, Hcount. split; [exact Hpass|].
  pose proof (tidy_size _ _ _ _ _ Ht). pose proof (sound_pos _ _ Hs).
  pose proof (sound_count _ _ Hs).
  pose proof (total_size_nonneg (written st0)). lia.
Qed.

(** X10 -- a pass that ends without a warning and without a failed write has
    missed no marker: every marker of the buffer either starts a written icon
    or lies inside one (between the first byte of its marker and its last
    byte), where the scanner does not look. *)
Theorem clean_pass_misses_no_marker (w : world) (output_dir : string)
    (data : bytes) (log0 : list record) :
  exists e,
    pass w output_dir data log0 = Some e
    /\ (forall st h, e = Halted st h -> h = Exhausted \/ h = NotFound ->
        forall q, marker_at data q -> covered (written st) q).
Proof.
  destruct (pass_tidy w output_dir data log0)
    as (e & st0 & Hpass & Hs & Ht & Hl).
  exists e. split; [exact Hpass|]. intros st h -> Hclean q Hm.
  pose proof (sound_pos _ _ Hs) as Hpos.
  pose proof (tidy_markers _ _ _ _ _ Ht) as Hmarkers.
  destruct (leaves_cases w output_dir data st0 _ (proj1 Hpos) Hl)
    as [[Hend [= -> ->]]|[(_ & Hnone & [= -> ->])
       |[(p & err & _ & _ & _ & _ & [= _ ->])
        |(p & n & _ & _ & _ & _ & _ & [=])]]].
  - apply Hmarkers; [assumption|].
    apply marker_at_inside in Hm. lia.
  - simpl. destruct (Z.lt_ge_cases q (pos st0)) as [Hlt|Hge];
      [apply Hmarkers; assumption|].
    exfalso.
    destruct (find_next_icon_spec data (pos st0) (proj1 Hpos))
      as [(p & _ & Hmp & _ & Hres)|[Hno _]].
    + apply marker_at_inside in Hmp. lia.
    + apply (Hno q Hge Hm).
  - destruct Hclean; discriminate.
Qed.

Lemma clean_pass_misses_no_marker_witness :
  exists e,
    pass (world_with (two_icons x69 x63 x6e x73 x00 x00)) "out"
         (two_icons x69 x63 x6e x73 x00 x00) [] = Some e
    /\ covered (written (exit_state e)) 0
    /\ covered (written (exit_state e)) 8
    /\ covered (written (exit_state e)) 12.
Proof.
  destruct (clean_pass_misses_no_marker
              (world_with (two_icons x69 x63 x6e x73 x00 x00)) "out"
              (two_icons x69 x63 x6e x73 x00 x00) [])
    as (e & Hpass & Hall).
  exists e. split; [exact Hpass|].
  vm_compute in Hpass. injection Hpass as <-.
  repeat split; apply (Hall _ _ eq_refl (or_introl eq_refl)).
  - exists [], [x00; x00; x00; x08; x69; x63; x6e; x73; x69; x63; x6e; x73;
                x00; x00; x00; x06; x00; x00]. split; reflexivity.
  - exists [x69; x63; x6e; x73; x00; x00; x00; x08],
           [x69; x63; x6e; x73; x00; x00; x00; x06; x00; x00].
    split; reflexivity.
  - exists [x69; x63; x6e; x73; x00; x00; x00; x08; x69; x63; x6e; x73],
           [x00; x00; x00; x06; x00; x00]. split; reflexivity.
Defined.

(** X11 -- where a pass stops at malformed data: it stops right after a
    marker; with an incomplete header that marker ends in the last three
    bytes of the buffer or at its very end, and with an oversized chunk the
    length field is complete and the length it gives reaches beyond the
    buffer. *)
Theorem malformed_stop_position (w : world) (output_dir : string)
    (data : bytes) (log0 : list record) (st : state) (err : chunk_error) :
  pass w output_dir data log0 = Some (Halted st (BadChunk err)) ->
  marker_at data (pos st - 4)
  /\ read_chunk data (pos st) = inl err
  /\ (err = IncompleteHeader -> len data - 4 < pos st <= len data)
  /\ (err = OversizedChunk ->
      exists icon_data_size,
        unpack_be32 (slice data (pos st) (pos st + 4)) = Some icon_data_size
        /\ len data < pos st + icon_data_size)
  /\ err <> InvalidSize.
Proof.
  intros Hrun.
  destruct (pass_ends w output_dir data log0)
    as (e & st0 & Hpass & Hs & Hl).
  rewrite Hrun in Hpass. injection Hpass as <-.
  pose proof (sound_pos _ _ Hs) as Hpos.
  destruct (leaves_cases w output_dir data st0 _ (proj1 Hpos) Hl)
    as [[_ [=]]|[(_ & _ & [=])
       |[(p & err' & _ & Hfind & Hp & Hread & [= -> ->])
        |(p & n & _ & _ & _ & _ & _ & [=])]]].
  simpl.
  assert (Hfound : p <> -1) by lia.
  destruct (find_next_icon_found data _ _ (proj1 Hpos) Hfind Hfound)
    as [_ Hm].
  split; [exact Hm|]. split; [exact Hread|]. split; [|split].
  - intros ->. apply read_chunk_incomplete in Hread. lia.
  - intros ->.
    assert (Hhdr : p + 4 <= len data).
    { destruct (Z.le_gt_cases (p + 4) (len data)) as [|Hgt];
        [assumption|].
      apply Z.lt_gt, read_chunk_incomplete in Hgt. congruence. }
    destruct (header_decodes data p ltac:(lia) Hhdr) as (n & Hun & _).
    exists n. split; [exact Hun|].
    apply (read_chunk_oversized data p n Hun Hhdr) in Hread. lia.
  - intros ->. apply (read_chunk_never_invalid data p ltac:(lia) Hread).
Qed.

Lemma malformed_stop_position_witness :
  exists icon_data_size,
    unpack_be32 (slice oversized_file 4 (4 + 4)) = Some icon_data_size
    /\ len oversized_file < 4 + icon_data_size.
Proof.
  destruct (malformed_stop_position (world_with oversized_file) "out"
              oversized_file []
              {| pos := 4; icon_count := 0; written := [];
                 log := [(WARNING, Malformed OversizedChunk)];
                 cursor := [0; 4] |} OversizedChunk eq_refl)
    as (_ & _ & _ & Hover & _).
  apply Hover. reflexivity.
Defined.

(** ** More on [extract_icons] *)

Lemma usable_decide (w : world) (datfile : string) :
  usable w datfile \/ ~ usable w datfile.
Proof.
  unfold usable. destruct (path_exists w datfile);
    [|right; intros (H & _); discriminate].
  destruct (access_r w datfile);
    [|right; intros (_ & H & _); discriminate].
  destruct (Z.le_gt_cases 4 (len (file_data w datfile))) as [Hle|Hgt];
    [left; auto|right; intros (_ & _ & H); lia].
Qed.

(** A call on a usable input: the loop ends, left from a sound and tidy
    state, and the result is the report of how it was left. *)
Lemma usable_run (w : world) (datfile output_dir : string) :
  usable w datfile ->
  exists e st0,
    extract_icons w datfile output_dir
    = Some (report (if negb (path_exists w output_dir)
                    then [output_dir] else []) e)
    /\ sound (file_data w datfile) st0
    /\ tidy w output_dir (file_data w datfile) (prelude w output_dir) st0
    /\ leaves w output_dir (file_data w datfile) st0 e.
Proof.
  intros Hok. rewrite (extract_icons_scans w datfile output_dir Hok).
  destruct (pass_tidy w output_dir (file_data w datfile)
              (prelude w output_dir))
    as (e & st0 & Hpass & Hs & Ht & Hl).
  exists e, st0. rewrite Hpass. repeat (split; [assumption||reflexivity|]).
  assumption.
Qed.

(** The records of a call on a usable input: what is logged before the loop,
    one record per file, and how the call ends. *)
Lemma usable_messages (w : world) (datfile output_dir : string) :
  usable w datfile ->
  exists r tail,
    extract_icons w datfile output_dir = Some r
    /\ messages r
       = prelude w output_dir
         ++ extracted_records output_dir (List.length (files r)) ++ tail
    /\ ((returned r = true /\
         (tail = [(INFO, Complete (Z.of_nat (List.length (files r))))]
          /\ (forall e, left_loop r = Some e -> malformed_exit e = false)
          \/ exists st err,
               left_loop r = Some (Halted st (BadChunk err)) /\
               tail = [(WARNING, Malformed err);
                       (INFO, Complete (Z.of_nat (List.length (files r))))]))
        \/ (returned r = false /\ tail = [(ERROR, WriteFailed)] /\
            exists p n,
              read_chunk (file_data w datfile) p
              = inr (n, slice (file_data w datfile) p (p + n)) /\
              write_ok w (icon_path output_dir
                            (Z.of_nat (List.length (files r))))
                       (slice (file_data w datfile) p (p + n)) = false)).
Proof.
  intros Hok.
  destruct (usable_run w datfile output_dir Hok)
    as (e & st0 & Hrun & Hs & Ht & Hl).
  pose proof (sound_pos _ _ Hs) as Hpos.
  pose proof (sound_count _ _ Hs) as Hcount.
  pose proof (tidy_log _ _ _ _ _ Ht) as Hlog.
  destruct (leaves_cases w output_dir _ st0 e (proj1 Hpos) Hl)
    as [[_ ->]|[(_ & _ & ->)|[(p & err & _ & _ & _ & _ & ->)
                             |(p & n & _ & _ & _ & Hread & Hwrite & ->)]]];
    eexists; eexists; (split; [exact Hrun|]); simpl;
    rewrite Hlog, <- ?app_assoc.
  - split; [reflexivity|]. left. split; [reflexivity|]. left.
    rewrite Hcount. split; [reflexivity|]. intros e [= <-]. reflexivity.
  - split; [reflexivity|]. left. split; [reflexivity|]. left.
    rewrite Hcount. split; [reflexivity|]. intros e [= <-]. reflexivity.
  - split; [reflexivity|]. left. split; [reflexivity|]. right.
    eexists. exists err. rewrite Hcount. split; reflexivity.
  - split; [reflexivity|]. right. split; [reflexivity|].
    split; [reflexivity|]. exists p, n. rewrite <- Hcount.
    split; assumption.
Qed.

(** When every write succeeds the loop is never left by [return False]. *)
Lemma pass_not_aborted (w : world) (output_dir : string) (data : bytes)
    (log0 : list record) :
  (forall name chunk, write_ok w name chunk = true) ->
  exists st h, pass w output_dir data log0 = Some (Halted st h).
Proof.
  intros Hwrite.
  destruct (pass_ends w output_dir data log0)
    as (e & st0 & Hpass & Hs & Hl).
  pose proof (sound_pos _ _ Hs) as Hpos.
  destruct (leaves_cases w output_dir data st0 e (proj1 Hpos) Hl)
    as [[_ ->]|[(_ & _ & ->)|[(p & err & _ & _ & _ & _ & ->)
                             |(p & n & _ & _ & _ & _ & Hfail & _)]]];
    try (eexists; eexists; exact Hpass).
  rewrite Hwrite in Hfail. discriminate.
Qed.

(** When [os.makedirs] and [open] succeed, the call is the one modelled by
    [extract_icons]. *)
Lemma extract_icons_host_agrees (h : host) (datfile output_dir : string) :
  output_dir_ready h output_dir -> open_ok h datfile = true ->
  extract_icons_host h datfile output_dir
  = option_map Finished (extract_icons (host_world h) datfile output_dir).
Proof.
  intros Hready Hopen. unfold extract_icons_host, extract_icons.
  destruct (path_exists (host_world h) datfile); [|reflexivity].
  destruct (access_r (host_world h) datfile); [|reflexivity].
  simpl negb. cbv iota.
  destruct (len (file_data (host_world h) datfile) =? 0); [reflexivity|].
  assert (Hmake : negb (path_exists (host_world h) output_dir)
                  && negb (makedirs_succeeds h output_dir) = false).
  { destruct Hready as [-> | ->]; [reflexivity|apply andb_false_r]. }
  rewrite Hmake, Hopen. simpl negb. cbv iota.
  destruct (_ <? _); [reflexivity|].
  destruct (pass _ _ _ _) as [[st x|st]|]; reflexivity.
Qed.

(** A datfile that is missing, unreadable or empty is refused before
    anything else is tried. *)
Lemma extract_icons_host_refuses_early (h : host)
    (datfile output_dir : string) :
  path_exists (host_world h) datfile = false
  \/ access_r (host_world h) datfile = false
  \/ len (file_data (host_world h) datfile) = 0 ->
  exists r,
    extract_icons_host h datfile output_dir = Some (Finished r)
    /\ returned r = false /\ made_dirs r = [].
Proof.
  intros Hbad. unfold extract_icons_host.
  destruct (path_exists (host_world h) datfile); simpl negb; cbv iota;
    [|eexists; repeat split].
  destruct (access_r (host_world h) datfile); simpl negb; cbv iota;
    [|eexists; repeat split].
  destruct (Z.eqb_spec (len (file_data (host_world h) datfile)) 0)
    as [Hzero|Hne]; [eexists; repeat split|].
  destruct Hbad as [H|[H|H]]; [discriminate H|discriminate H|contradiction].
Qed.

(** Past those checks, a failing [os.makedirs] or [open] ends the call with
    an exception. *)
Lemma extract_icons_host_raises (h : host) (datfile output_dir : string) :
  path_exists (host_world h) datfile = true ->
  access_r (host_world h) datfile = true ->
  len (file_data (host_world h) datfile) <> 0 ->
  (path_exists (host_world h) output_dir = false /\
   makedirs_succeeds h output_dir = false
   -> extract_icons_host h datfile output_dir
      = Some (Raised MakedirsError [(INFO, CreatingDir output_dir)] []))
  /\ (output_dir_ready h output_dir -> open_ok h datfile = false ->
      extract_icons_host h datfile output_dir
      = Some (Raised OpenError
                (if negb (path_exists (host_world h) output_dir)
                 then [(INFO, CreatingDir output_dir)] else [])
                (if negb (path_exists (host_world h) output_dir)
                 then [output_dir] else []))).
Proof.
  intros Hexists Hread Hne. unfold extract_icons_host.
  rewrite Hexists, Hread. simpl negb. cbv iota.
  destruct (Z.eqb_spec (len (file_data (host_world h) datfile)) 0)
    as [Hzero|_]; [contradiction|].
  split.
  - intros [-> ->]. reflexivity.
  - intros Hready Hopen.
    assert (Hmake : negb (path_exists (host_world h) output_dir)
                    && negb (makedirs_succeeds h output_dir) = false).
    { destruct Hready as [-> | ->]; [reflexivity|apply andb_false_r]. }
    rewrite Hmake, Hopen. reflexivity.
Qed.

Lemma output_dir_ready_decide (h : host) (output_dir : string) :
  output_dir_ready h output_dir
  \/ (path_exists (host_world h) output_dir = false /\
      makedirs_succeeds h output_dir = false).
Proof.
  unfold output_dir_ready.
  destruct (path_exists (host_world h) output_dir); [left; left; reflexivity|].
  destruct (makedirs_succeeds h output_dir);
    [left; right; reflexivity|right; split; reflexivity].
Qed.

(** C5, as the code has it -- the input precondition.  A datfile that is
    missing, unreadable or shorter than the marker (fewer than 4 bytes) never
    reaches the loop: "Starting icon extraction" is not logged and [True] is
    not returned.  The call returns [False], except that for a datfile of one
    to three bytes it ends with the exception when [os.makedirs] or [open]
    raises.  A readable datfile of exactly 4 bytes is not refused: unless one
    of the two raises, "Starting icon extraction" is logged, the loop is
    entered and [True] is returned; [False] is never returned for it.  From
    an input of at most 4 bytes no file is written. *)
Theorem short_or_missing_input (h : host) (datfile output_dir : string) :
  path_exists (host_world h) datfile = false
  \/ access_r (host_world h) datfile = false
  \/ len (file_data (host_world h) datfile) <= 4 ->
  exists o,
    extract_icons_host h datfile output_dir = Some o
    /\ files_of o = []
    /\ (path_exists (host_world h) datfile = false
        \/ access_r (host_world h) datfile = false
        \/ len (file_data (host_world h) datfile) < 4 ->
        returned_of o <> Some true /\ entered_loop o = false
        /\ ~ In (INFO, Starting) (logged_of o)
        /\ (returned_of o = Some false
            <-> path_exists (host_world h) datfile = false
                \/ access_r (host_world h) datfile = false
                \/ len (file_data (host_world h) datfile) = 0
                \/ (output_dir_ready h output_dir /\
                    open_ok h datfile = true)))
    /\ (path_exists (host_world h) datfile = true ->
        access_r (host_world h) datfile = true ->
        len (file_data (host_world h) datfile) = 4 ->
        returned_of o <> Some false
        /\ (returned_of o = Some true
            <-> output_dir_ready h output_dir /\ open_ok h datfile = true)
        /\ (returned_of o = Some true ->
            In (INFO, Starting) (logged_of o) /\ entered_loop o = true)).
Proof.
  intros Hbad.
  destruct (path_exists (host_world h) datfile) eqn:Hexists.
  2:{ exists (Finished (refused [(ERROR, DatMissing datfile)] [])).
      unfold extract_icons_host. rewrite Hexists. simpl.
      split; [reflexivity|]. split; [reflexivity|]. split; [|discriminate].
      intros _. split; [discriminate|]. split; [reflexivity|].
      split; [intros [[=]|[]]|]. split; auto. }
  destruct (access_r (host_world h) datfile) eqn:Hread.
  2:{ exists (Finished (refused [(ERROR, DatUnreadable datfile)] [])).
      unfold extract_icons_host. rewrite Hexists, Hread. simpl.
      split; [reflexivity|]. split; [reflexivity|]. split; [|discriminate].
      intros _. split; [discriminate|]. split; [reflexivity|].
      split; [intros [[=]|[]]|]. split; auto. }
  destruct (Z.eq_dec (len (file_data (host_world h) datfile)) 0)
    as [Hzero|Hne].
  { exists (Finished (refused [(ERROR, DatEmpty datfile)] [])).
    unfold extract_icons_host. rewrite Hexists, Hread, Hzero. simpl.
    split; [reflexivity|]. split; [reflexivity|]. split; [|intros; lia].
    intros _. split; [discriminate|]. split; [reflexivity|].
    split; [intros [[=]|[]]|]. split; auto. }
  assert (Hfour : len (file_data (host_world h) datfile) <= 4)
    by (destruct Hbad as [H|[H|H]]; [discriminate|discriminate|exact H]).
  destruct (extract_icons_host_raises h datfile output_dir Hexists Hread Hne)
    as [Hmk Hop].
  destruct (output_dir_ready_decide h output_dir) as [Hready|Hnot].
  2:{ eexists. split; [exact (Hmk Hnot)|]. simpl.
      assert (Hno : ~ output_dir_ready h output_dir).
      { destruct Hnot as [Hd Hm]. intros [Hr|Hr]; congruence. }
      split; [reflexivity|]. split.
      - intros _. split; [discriminate|]. split; [reflexivity|].
        split; [intros [[=]|[]]|]. split; [discriminate|].
        intros [H|[H|[H|[H _]]]]; try discriminate; contradiction.
      - intros _ _ _. split; [discriminate|]. split; [|discriminate].
        split; [discriminate|]. intros [H _]. contradiction. }
  destruct (open_ok h datfile) eqn:Hopen.
  2:{ eexists. split; [exact (Hop Hready eq_refl)|]. simpl.
      assert (Hquiet : ~ In (INFO, Starting)
                         (if negb (path_exists (host_world h) output_dir)
                          then [(INFO, CreatingDir output_dir)] else [])).
      { destruct (negb _); [intros [[=]|[]]|intros []]. }
      split; [reflexivity|]. split.
      - intros _. split; [discriminate|]. split; [reflexivity|].
        split; [exact Hquiet|]. split; [discriminate|].
        intros [H|[H|[H|[_ H]]]]; try discriminate; contradiction.
      - intros _ _ _. split; [discriminate|]. split; [|discriminate].
        split; [discriminate|]. intros [_ H]. discriminate. }
  rewrite (extract_icons_host_agrees h datfile output_dir Hready Hopen).
  destruct (short_input_scanned_or_refused (host_world h) datfile output_dir)
    as (r & -> & Hfiles & Hrefused & Hscanned).
  { right; right. exact Hfour. }
  exists (Finished r). split; [reflexivity|]. simpl.
  split; [exact Hfiles|]. split.
  - intros Hshort.
    destruct (Hrefused ltac:(destruct Hshort as [H|[H|H]]; auto;
                             congruence))
      as (Hfalse & Hleft & Hquiet).
    rewrite Hfalse, Hleft. split; [discriminate|]. split; [reflexivity|].
    split; [exact Hquiet|]. split; [|reflexivity]. intros _.
    right; right; right. split; [exact Hready|reflexivity].
  - intros _ _ Hlen.
    destruct (Hscanned Hexists Hread Hlen)
      as (Htrue & Hstart & st & x & Hleft).
    rewrite Htrue, Hleft. split; [discriminate|]. split.
    + split; [intros _; split; [exact Hready|reflexivity]|reflexivity].
    + intros _. split; [exact Hstart|reflexivity].
Qed.

Lemma short_or_missing_input_witness :
  (exists o,
     extract_icons_host (host_with [x69; x63; x6e]) "in.dat" "out" = Some o
     /\ files_of o = []
     /\ returned_of o = Some false
     /\ ~ In (INFO, Starting) (logged_of o))
  /\ (exists o,
        extract_icons_host (host_with no_marker_file) "in.dat" "out" = Some o
        /\ files_of o = []
        /\ returned_of o = Some true
        /\ In (INFO, Starting) (logged_of o)).
Proof.
  split.
  - destruct (short_or_missing_input (host_with [x69; x63; x6e]) "in.dat"
                "out" ltac:(right; right; vm_compute; congruence))
      as (o & Hrun & Hfiles & Hrefused & _).
    destruct (Hrefused ltac:(right; right; reflexivity))
      as (_ & _ & Hquiet & Hfalse).
    exists o. split; [exact Hrun|]. split; [exact Hfiles|].
    split; [|exact Hquiet]. apply Hfalse.
    right; right; right. split; [right; reflexivity|reflexivity].
  - destruct (short_or_missing_input (host_with no_marker_file) "in.dat"
                "out" ltac:(right; right; vm_compute; congruence))
      as (o & Hrun & Hfiles & _ & Hscanned).
    destruct (Hscanned eq_refl eq_refl eq_refl) as (_ & Htrue & Hstart).
    assert (Hret : returned_of o = Some true).
    { apply Htrue. split; [right; reflexivity|reflexivity]. }
    exists o. split; [exact Hrun|]. split; [exact Hfiles|].
    split; [exact Hret|]. apply Hstart. exact Hret.
Defined.

(** X12 -- when every write succeeds, [extract_icons] returns [True] exactly
    when the datfile exists, can be read and holds at least four bytes, the
    output directory exists or is made by [os.makedirs], and the datfile can
    be opened.  It raises, instead of returning, exactly when the datfile
    exists, can be read and is not empty, and [os.makedirs] or [open]
    fails. *)
Theorem returns_true_iff_usable (h : host) (datfile output_dir : string) :
  (forall name chunk, write_ok (host_world h) name chunk = true) ->
  exists o,
    extract_icons_host h datfile output_dir = Some o
    /\ ((exists r, o = Finished r /\ returned r = true)
        <-> usable (host_world h) datfile /\
            output_dir_ready h output_dir /\ open_ok h datfile = true)
    /\ ((exists x logged dirs, o = Raised x logged dirs)
        <-> path_exists (host_world h) datfile = true /\
            access_r (host_world h) datfile = true /\
            len (file_data (host_world h) datfile) <> 0 /\
            (path_exists (host_world h) output_dir = false /\
             makedirs_succeeds h output_dir = false
             \/ open_ok h datfile = false)).
Proof.
  intros Hwrite.
  assert (Hearly :
            path_exists (host_world h) datfile = false
            \/ access_r (host_world h) datfile = false
            \/ len (file_data (host_world h) datfile) = 0
            \/ (path_exists (host_world h) datfile = true /\
                access_r (host_world h) datfile = true /\
                len (file_data (host_world h) datfile) <> 0)).
  { destruct (path_exists (host_world h) datfile); [|auto].
    destruct (access_r (host_world h) datfile); [|auto].
    destruct (Z.eq_dec (len (file_data (host_world h) datfile)) 0);
      [auto|]. right; right; right. repeat split; assumption. }
  assert (Hrefused :
            path_exists (host_world h) datfile = false
            \/ access_r (host_world h) datfile = false
            \/ len (file_data (host_world h) datfile) = 0 ->
            ~ usable (host_world h) datfile /\
            ~ (path_exists (host_world h) datfile = true /\
               access_r (host_world h) datfile = true /\
               len (file_data (host_world h) datfile) <> 0 /\
               (path_exists (host_world h) output_dir = false /\
                makedirs_succeeds h output_dir = false
                \/ open_ok h datfile = false))).
  { unfold usable. intros [H|[H|H]]; rewrite H; split;
      intros (H1 & H2 & H3); try discriminate; try lia;
      destruct H3 as [H3 _]; contradiction. }
  destruct Hearly as [H|[H|[H|(Hexists & Hread & Hne)]]];
    try (destruct (extract_icons_host_refuses_early h datfile output_dir)
           as (r & Hrun & Hfalse & _); [auto|];
         destruct Hrefused as [Hno1 Hno2]; [auto|];
         exists (Finished r); split; [exact Hrun|]; split; split;
         [intros (r' & [= <-] & Hr'); congruence
         |intros (Hok & _); contradiction
         |intros (x & l & ds & [=])
         |intros Hraise; contradiction]).
  destruct (extract_icons_host_raises h datfile output_dir Hexists Hread Hne)
    as [Hmk Hop].
  destruct (output_dir_ready_decide h output_dir) as [Hready|Hnot].
  2:{ eexists. split; [exact (Hmk Hnot)|]. split; split.
      - intros (r & [=] & _).
      - intros (_ & Hr & _). destruct Hnot as [Hn1 Hn2].
        destruct Hr as [Hd|Hd]; congruence.
      - intros _. repeat split; auto.
      - intros _. do 3 eexists. reflexivity. }
  destruct (open_ok h datfile) eqn:Hopen.
  2:{ eexists. split; [exact (Hop Hready eq_refl)|]. split; split.
      - intros (r & [=] & _).
      - intros (_ & _ & Ho). discriminate Ho.
      - intros _. repeat split; auto.
      - intros _. do 3 eexists. reflexivity. }
  rewrite (extract_icons_host_agrees h datfile output_dir Hready Hopen).
  assert (Hnoraise :
            ~ (path_exists (host_world h) output_dir = false /\
               makedirs_succeeds h output_dir = false \/ true = false)).
  { intros [[Hd Hm]|Hf]; [|discriminate].
    destruct Hready as [Hr|Hr]; congruence. }
  destruct (usable_decide (host_world h) datfile) as [Hok|Hbad].
  - rewrite (extract_icons_scans _ _ output_dir Hok).
    destruct (pass_not_aborted (host_world h) output_dir
                (file_data (host_world h) datfile)
                (prelude (host_world h) output_dir) Hwrite)
      as (st & x & ->).
    eexists. split; [reflexivity|]. split; split.
    + intros _. repeat split; try assumption; apply Hok.
    + intros _. eexists. split; reflexivity.
    + intros (y & l & ds & [=]).
    + intros (_ & _ & _ & Hr). contradiction.
  - destruct (extract_icons_refuses (host_world h) datfile output_dir Hbad)
      as (r & -> & Hfalse & _).
    eexists. split; [reflexivity|]. split; split.
    + intros (r' & [= <-] & Hr'). congruence.
    + intros (Hok & _). contradiction.
    + intros (y & l & ds & [=]).
    + intros (_ & _ & _ & Hr). contradiction.
Qed.

Lemma returns_true_iff_usable_witness :
  (exists r,
     extract_icons_host (host_with oversized_file) "in.dat" "out"
     = Some (Finished r) /\ returned r = true)
  /\ extract_icons_host (host_with oversized_file) "in.dat" ""
     = Some (Raised MakedirsError [(INFO, CreatingDir "")] []).
Proof.
  destruct (returns_true_iff_usable (host_with oversized_file) "in.dat"
              "out" (fun _ _ => eq_refl))
    as (o & Hrun & Htrue & _).
  split; [|reflexivity].
  destruct (proj2 Htrue) as (r & -> & Hr).
  { repeat split; [vm_compute; congruence|right; reflexivity]. }
  exists r. split; [exact Hrun|exact Hr].
Defined.




(** X14 -- a usable datfile without any marker: nothing is written, the only
    records are those logged before the loop and "Extraction complete" with a
    count of 0, and [True] is returned. *)
Theorem no_marker_no_files (w : world) (datfile output_dir : string) :
  usable w datfile ->
  (forall q, ~ marker_at (file_data w datfile) q) ->
  exists r st,
    extract_icons w datfile output_dir = Some r
    /\ returned r = true
    /\ files r = []
    /\ messages r = prelude w output_dir ++ [(INFO, Complete 0)]
    /\ left_loop r = Some (Halted st NotFound).
Proof.
  intros Hok Hnone.
  destruct (usable_run w datfile output_dir Hok)
    as (e & st0 & Hrun & Hs & Ht & Hl).
  pose proof (sound_pos _ _ Hs) as Hpos.
  pose proof (sound_count _ _ Hs) as Hcount.
  pose proof (sound_accepted _ _ Hs) as Hacc.
  pose proof (tidy_log _ _ _ _ _ Ht) as Hlog.
  assert (Hempty : written st0 = []).
  { destruct (written st0) as [|c l]; [reflexivity|].
    inversion Hacc as [|? ? [Hm _] _]; subst. exfalso.
    apply (Hnone _ Hm). }
  rewrite Hempty in Hcount, Hlog. simpl in Hcount, Hlog.
  rewrite app_nil_r in Hlog.
  assert (Hscan : forall p, find_next_icon (file_data w datfile) (pos st0)
                            = p -> p = -1).
  { intros p Hfind. destruct (Z.eq_dec p (-1)) as [|Hfound]; [assumption|].
    destruct (find_next_icon_found _ _ _ (proj1 Hpos) Hfind Hfound)
      as [_ Hm]. exfalso. apply (Hnone _ Hm). }
  destruct Hok as (_ & _ & Hlen).
  destruct (leaves_cases w output_dir _ st0 e (proj1 Hpos) Hl)
    as [[Hend ->]|[(_ & _ & ->)|[(p & err & _ & Hfind & Hp & _ & _)
                                |(p & n & _ & Hfind & Hp & _ & _ & _)]]].
  - exfalso.
    pose proof (tidy_size _ _ _ _ _ Ht) as Hsize.
    pose proof (sound_resume _ _ Hs) as Hres.
    rewrite Hempty in Hres. simpl in Hres. unfold resume in Hres.
    simpl in Hres. lia.
  - eexists. eexists. split; [exact Hrun|]. simpl.
    rewrite Hempty, Hcount, Hlog. repeat split; reflexivity.
  - apply Hscan in Hfind. lia.
  - apply Hscan in Hfind. lia.
Qed.

Lemma no_marker_no_files_witness :
  exists r st,
    extract_icons (world_with no_marker_file) "in.dat" "out" = Some r
    /\ returned r = true
    /\ files r = []
    /\ messages r = [(INFO, Starting); (INFO, Complete 0)]
    /\ left_loop r = Some (Halted st NotFound).
Proof.
  apply (no_marker_no_files (world_with no_marker_file) "in.dat" "out").
  - repeat split. vm_compute. congruence.
  - intros q Hm. change (file_data _ _) with no_marker_file in Hm.
    destruct (marker_at_inside _ _ Hm) as [Hlo Hhi].
    change (len no_marker_file) with 4 in Hhi.
    assert (Hq : q = 0) by lia. subst q.
    apply marker_at_slice in Hm; [discriminate Hm|lia].
Defined.



(** X16 -- the records of a call that returns [True]: those logged before
    the loop, then "Extracted icon k to <name>" for k = 1, 2, ... with the
    numbered names in order, then one warning if and only if the pass stopped
    at malformed data, then "Extraction complete" with the number of files
    written. *)
Theorem records_of_a_completed_call (w : world)
    (datfile output_dir : string) :
  usable w datfile ->
  exists r,
    extract_icons w datfile output_dir = Some r
    /\ (returned r = true ->
        exists warnings,
          messages r
          = prelude w output_dir
            ++ extracted_records output_dir (List.length (files r))
            ++ warnings
            ++ [(INFO, Complete (Z.of_nat (List.length (files r))))]
          /\ (warnings = []
              /\ (forall e, left_loop r = Some e -> malformed_exit e = false)
              \/ exists st err,
                   left_loop r = Some (Halted st (BadChunk err)) /\
                   warnings = [(WARNING, Malformed err)])).
Proof.
  intros Hok.
  destruct (usable_messages w datfile output_dir Hok)
    as (r & tail & Hrun & Hmsg & [[Htrue Htail]|(Hfalse & _)]).
  - exists r. split; [exact Hrun|]. intros _.
    destruct Htail as [[-> Hclean]|(st & err & Hleft & ->)].
    + exists []. split; [exact Hmsg|]. left. split; [reflexivity|].
      exact Hclean.
    + exists [(WARNING, Malformed err)]. split; [exact Hmsg|]. right.
      exists st, err. split; [exact Hleft|reflexivity].
  - exists r. split; [exact Hrun|]. rewrite Hfalse. discriminate.
Qed.

Lemma records_of_a_completed_call_witness :
  exists r,
    extract_icons (world_with (two_icons x01 x02 x03 x04 x05 x06))
                  "in.dat" "out" = Some r
    /\ messages r
       = [(INFO, Starting); (INFO, Extracted 1 "out/icon_0000.icns");
          (INFO, Extracted 2 "out/icon_0001.icns"); (INFO, Complete 2)].
Proof.
  destruct (records_of_a_completed_call
              (world_with (two_icons x01 x02 x03 x04 x05 x06))
              "in.dat" "out")
    as (r & Hrun & Hrec).
  { repeat split. vm_compute. congruence. }
  exists r. split; [exact Hrun|].
  vm_compute in Hrun. injection Hrun as <-. reflexivity.
Defined.

(** ** [main] and the log level *)

Lemma shown_app (loglevel : level) (a b : list record) :
  shown loglevel (a ++ b) = shown loglevel a ++ shown loglevel b.
Proof.
  apply filter_app.
Qed.

(** Records that are all of level INFO: hidden above INFO, shown at INFO and
    below. *)
Lemma shown_info (loglevel : level) (rs : list record) :
  Forall (fun x => fst x = INFO) rs ->
  shown loglevel rs
  = match loglevel with
    | DEBUG | INFO => rs
    | WARNING | ERROR => []
    end.
Proof.
  intros Hall. induction Hall as [|[l m] rs Hl _ IH]; simpl in *.
  - destruct loglevel; reflexivity.
  - subst l. rewrite IH. destruct loglevel; reflexivity.
Qed.

Lemma shown_debug (rs : list record) : shown DEBUG rs = rs.
Proof.
  induction rs as [|[l m] rs IH]; [reflexivity|].
  unfold shown in *. cbn [filter fst]. rewrite IH.
  destruct l; reflexivity.
Qed.

Lemma prelude_info (w : world) (output_dir : string) :
  Forall (fun x => fst x = INFO) (prelude w output_dir).
Proof.
  unfold prelude. destruct (negb (path_exists w output_dir));
    repeat constructor.
Qed.

Lemma extracted_records_info (output_dir : string) (n : nat) :
  Forall (fun x => fst x = INFO) (extracted_records output_dir n).
Proof.
  unfold extracted_records. apply Forall_map, Forall_forall.
  intros i _. reflexivity.
Qed.

(** What a call logs at level ERROR, and that it logs nothing at level
    DEBUG. *)
Lemma messages_levels (w : world) (datfile output_dir : string) :
  exists r,
    extract_icons w datfile output_dir = Some r
    /\ shown INFO (messages r) = messages r
    /\ (returned r = true -> shown ERROR (messages r) = [])
    /\ (returned r = false ->
        exists m, shown ERROR (messages r) = [(ERROR, m)] /\
                  In m [DatMissing datfile; DatUnreadable datfile;
                        DatEmpty datfile; TooSmall; WriteFailed]).
Proof.
  destruct (usable_decide w datfile) as [Hok|Hbad].
  - destruct (usable_messages w datfile output_dir Hok)
      as (r & tail & Hrun & Hmsg & Hends).
    exists r. split; [exact Hrun|]. rewrite Hmsg, !shown_app.
    rewrite !(shown_info _ _ (prelude_info w output_dir)).
    rewrite !(shown_info _ _ (extracted_records_info output_dir _)).
    destruct Hends as [[-> [[-> _]|(st & err & _ & ->)]]
                      |(-> & -> & _)]; simpl.
    + split; [reflexivity|]. split; [reflexivity|discriminate].
    + split; [reflexivity|]. split; [reflexivity|discriminate].
    + split; [reflexivity|]. split; [discriminate|].
      intros _. exists WriteFailed. split; [reflexivity|]. simpl. auto 6.
  - destruct (extract_icons_refuses w datfile output_dir Hbad)
      as (r & Hrun & Hret & _ & _ & m & Hm & Herr & Hdebug).
    exists r. split; [exact Hrun|]. rewrite Hret.
    split; [|split; [discriminate|]].
    + clear Herr. induction Hdebug as [|[l x] rs Hl _ IH]; [reflexivity|].
      simpl in *. rewrite IH. destruct l; [contradiction|reflexivity..].
    + intros _. exists m. split; [exact Herr|]. simpl in *. intuition.
Qed.



(** X18 -- the code logs nothing at level DEBUG: [main] shows every record
    of the extraction with [--loglevel INFO] (the default) as with
    [--loglevel DEBUG], so the two levels show the same. *)
Theorem main_debug_shows_as_info (w : world) (datfile : option string)
    (output : string) :
  exists mr r,
    main w {| arg_datfile := datfile; arg_output := output;
              arg_loglevel := INFO |} = Some mr
    /\ main w {| arg_datfile := datfile; arg_output := output;
                 arg_loglevel := DEBUG |} = Some mr
    /\ extract_icons w
         (match datfile with Some d => d | None => DEFAULT_DATFILE end)
         output = Some r
    /\ main_shown mr = messages r.
Proof.
  unfold main. simpl.
  destruct (messages_levels w
              (match datfile with Some d => d | None => DEFAULT_DATFILE end)
              output)
    as (r & -> & Hinfo & _).
  rewrite Hinfo, shown_debug.
  destruct (returned r); simpl; eexists; exists r;
    repeat split; reflexivity.
Qed.
